(** * Booking management screen (src/App.tsx): validation, store and search

    A shallow embedding of the single component of the application: the
    form validator ([bookingSchema]), the booking store with its
    persistence ([loadBookings], [persistBookings], [handleSubmit],
    [handleDelete]) and the search filter ([filteredBookings]).

    Conventions.
    - A JavaScript string is a sequence of UTF-16 code units.  A code unit
      is an [N]; nothing below relies on the bound [c < 65536], so every
      statement holds in particular for real strings.
    - Handlers are [async] functions that [await] every storage call.  A
      handler is given whole, as a state transformer in a small
      state-and-exception monad: that is what it does when no event comes
      in while it waits.  The handlers are also given in two parts, cut at
      their [await], for the application in which the screen takes events
      while handlers wait ([live]).
    - [String.prototype.toLowerCase] (a Unicode table) is a parameter of
      the search section.
    - [JSON.parse] returns an untyped value that the source annotates as
      [Booking[]] and hands to [setBookings] without checking it.  The
      collection in memory is typed.  When the parsed value is an array of
      objects in the shape [JSON.stringify] gives a booking, the cell takes
      the collection it denotes; any other value [v] is not coerced: the
      handler runs on as in the source and ends with the outcome
      [Untyped v], which says that the cell now holds [v]. *)

From Stdlib Require Import String Ascii.
From Stdlib Require Import List NArith ZArith Bool Lia.
From Stdlib Require DecimalN.
Import ListNotations.

(** ** JavaScript strings *)

Module JS.

Definition code_unit := N.
Definition jsstring := list code_unit.

(** An ASCII literal of the source as a sequence of code units. *)
Definition lit (s : string) : jsstring :=
  List.map N_of_ascii (list_ascii_of_string s).
Arguments lit s%_string.

Definition cu_eqb (a b : code_unit) : bool := N.eqb a b.

Fixpoint str_eqb (a b : jsstring) : bool :=
  match a, b with
  | [], [] => true
  | x :: a', y :: b' => cu_eqb x y && str_eqb a' b'
  | _, _ => false
  end.

(** WhiteSpace and LineTerminator code points (ECMA-262, TrimString):
    TAB, LF, VT, FF, CR, SP, NBSP, U+1680, U+2000..U+200A, U+2028, U+2029,
    U+202F, U+205F, U+3000, U+FEFF. *)
Definition isWhiteSpace (c : code_unit) : bool :=
  ((9 <=? c) && (c <=? 13)
   || (c =? 32) || (c =? 160) || (c =? 5760)
   || ((8192 <=? c) && (c <=? 8202))
   || (c =? 8232) || (c =? 8233) || (c =? 8239) || (c =? 8287)
   || (c =? 12288) || (c =? 65279))%N.

Fixpoint trimStart (s : jsstring) : jsstring :=
  match s with
  | [] => []
  | c :: r => if isWhiteSpace c then trimStart r else s
  end.

Definition trimEnd (s : jsstring) : jsstring := rev (trimStart (rev s)).

(** [s.trim()] *)
Definition trim (s : jsstring) : jsstring := trimEnd (trimStart s).

(** [s.length < 1], the test behind zod's [min(1)]. *)
Definition is_empty (s : jsstring) : bool :=
  match s with [] => true | _ :: _ => false end.

(** [q] is a prefix of [s]. *)
Fixpoint startsWith (s q : jsstring) : bool :=
  match q, s with
  | [], _ => true
  | _ :: _, [] => false
  | x :: q', y :: s' => cu_eqb x y && startsWith s' q'
  end.

(** [s.includes(q)]: [q] occurs in [s] at some position. *)
Fixpoint includes (s q : jsstring) : bool :=
  startsWith s q ||
  match s with
  | [] => false
  | _ :: r => includes r q
  end.

(** Decimal digits of a non-negative integer, as [Number.prototype.toString]
    prints an integer below 10^21. *)
Fixpoint digits_of_uint (u : Decimal.uint) : jsstring :=
  match u with
  | Decimal.Nil => []
  | Decimal.D0 r => 48%N :: digits_of_uint r
  | Decimal.D1 r => 49%N :: digits_of_uint r
  | Decimal.D2 r => 50%N :: digits_of_uint r
  | Decimal.D3 r => 51%N :: digits_of_uint r
  | Decimal.D4 r => 52%N :: digits_of_uint r
  | Decimal.D5 r => 53%N :: digits_of_uint r
  | Decimal.D6 r => 54%N :: digits_of_uint r
  | Decimal.D7 r => 55%N :: digits_of_uint r
  | Decimal.D8 r => 56%N :: digits_of_uint r
  | Decimal.D9 r => 57%N :: digits_of_uint r
  end.

Definition toString (n : N) : jsstring := digits_of_uint (N.to_uint n).

(** Decimal digits of [n], left-padded with zeros to [w] places. *)
Definition pad (w : nat) (n : N) : jsstring :=
  let d := toString n in
  repeat 48%N (w - length d) ++ d.

End JS.
Import JS.

(** ** Dates *)

(** A [Date] object that holds a valid time value: milliseconds since the
    epoch, UTC.  The form only ever holds dates emitted by the picker. *)
Definition Date := Z.
Bind Scope Z_scope with Date.

(** Civil date (year, month, day) of a day number counted from 1970-01-01. *)
Definition civil_from_days (days : Z) : Z * Z * Z :=
  let z := (days + 719468)%Z in
  let era := (z / 146097)%Z in
  let doe := (z - era * 146097)%Z in
  let yoe := ((doe - doe / 1460 + doe / 36524 - doe / 146096) / 365)%Z in
  let doy := (doe - (365 * yoe + yoe / 4 - yoe / 100))%Z in
  let mp := ((5 * doy + 2) / 153)%Z in
  let d := (doy - (153 * mp + 2) / 5 + 1)%Z in
  let m := (if mp <? 10 then mp + 3 else mp - 9)%Z in
  let y := (yoe + era * 400 + (if m <=? 2 then 1 else 0))%Z in
  (y, m, d).

(** Year field of the ISO format: four digits, or a sign and six digits
    outside 0..9999. *)
Definition iso_year (y : Z) : jsstring :=
  if ((0 <=? y) && (y <=? 9999))%Z then pad 4 (Z.to_N y)
  else (if (y <? 0)%Z then 45%N else 43%N) :: pad 6 (Z.abs_N y).

(** [d.toISOString()]: YYYY-MM-DDTHH:mm:ss.sssZ *)
Definition toISOString (t : Date) : jsstring :=
  let day := (t / 86400000)%Z in
  let ms := (t mod 86400000)%Z in
  let '(y, m, d) := civil_from_days day in
  iso_year y ++ [45%N] ++ pad 2 (Z.to_N m) ++ [45%N] ++ pad 2 (Z.to_N d)
    ++ [84%N] ++ pad 2 (Z.to_N (ms / 3600000))
    ++ [58%N] ++ pad 2 (Z.to_N ((ms / 60000) mod 60))
    ++ [58%N] ++ pad 2 (Z.to_N ((ms / 1000) mod 60))
    ++ [46%N] ++ pad 3 (Z.to_N (ms mod 1000)) ++ [90%N].

(** ** Data model *)

(** [SERVICE_OPTIONS] *)
Definition SERVICE_OPTIONS : list jsstring :=
  [lit "Haircut"; lit "Massage"; lit "Consultation"].

(** [type Booking].  At run time [service] is a string; that it is one of
    [SERVICE_OPTIONS] is the static type [ServiceType], which nothing checks
    when a record is read back from storage. *)
Record Booking := mkBooking {
  id : jsstring;
  name : jsstring;
  date : jsstring;
  service : jsstring
}.

(** [type FormErrors] *)
Record FormErrors := mkFormErrors {
  err_name : option jsstring;
  err_date : option jsstring;
  err_service : option jsstring
}.

Definition no_errors : FormErrors := mkFormErrors None None None.

(** [STORAGE_KEY] *)
Definition STORAGE_KEY : jsstring := lit "booking_management_bookings".

(** ** Validator: [bookingSchema] *)

(** The object handed to [safeParse].  [None] is [undefined]. *)
Record FormInput := mkFormInput {
  in_name : jsstring;
  in_date : option Date;
  in_service : option jsstring
}.

(** The parsed value of a successful validation ([validation.data]). *)
Record FormData := mkFormData {
  data_name : jsstring;
  data_date : Date;
  data_service : jsstring
}.

Inductive Field := FName | FDate | FService.

Definition Field_eqb (a b : Field) : bool :=
  match a, b with
  | FName, FName | FDate, FDate | FService, FService => true
  | _, _ => false
  end.

(** A zod issue: its [path[0]] and its [message]. *)
Record Issue := mkIssue { path0 : Field; message : jsstring }.

Inductive SafeParse :=
| Success (data : FormData)
| Failure (errors : list Issue).

(** [z.string().trim().min(1, "Name is required")]: the checks run in
    order, [trim] rewrites the value, [min] tests its length. *)
Definition schema_name (v : jsstring) : jsstring + list Issue :=
  let v' := trim v in
  if is_empty v' then inr [mkIssue FName (lit "Name is required")]
  else inl v'.

(** [z.date({ required_error: "Date is required" })] *)
Definition schema_date (v : option Date) : Date + list Issue :=
  match v with
  | Some d => inl d
  | None => inr [mkIssue FDate (lit "Date is required")]
  end.

Definition is_service (s : jsstring) : bool :=
  existsb (str_eqb s) SERVICE_OPTIONS.

(** [z.enum(SERVICE_OPTIONS, { errorMap: ... "Service is required" })] *)
Definition schema_service (v : option jsstring) : jsstring + list Issue :=
  match v with
  | Some s =>
      if is_service s then inl s
      else inr [mkIssue FService (lit "Service is required")]
  | None => inr [mkIssue FService (lit "Service is required")]
  end.

Definition issues_of {A} (r : A + list Issue) : list Issue :=
  match r with inl _ => [] | inr l => l end.

(** [bookingSchema.safeParse]: [z.object] parses every key of the shape, in
    the order of the shape, and collects the issues of all of them. *)
Definition safeParse (i : FormInput) : SafeParse :=
  let rn := schema_name (in_name i) in
  let rd := schema_date (in_date i) in
  let rs := schema_service (in_service i) in
  match rn, rd, rs with
  | inl n, inl d, inl s => Success (mkFormData n d s)
  | _, _, _ => Failure (issues_of rn ++ issues_of rd ++ issues_of rs)
  end.

Definition set_error (f : Field) (m : jsstring) (e : FormErrors) : FormErrors :=
  match f with
  | FName => mkFormErrors (Some m) (err_date e) (err_service e)
  | FDate => mkFormErrors (err_name e) (Some m) (err_service e)
  | FService => mkFormErrors (err_name e) (err_date e) (Some m)
  end.

(** The [forEach] of [handleSubmit]: [fieldErrors[field] = err.message]. *)
Definition fieldErrors_of (errs : list Issue) : FormErrors :=
  fold_left (fun fe err => set_error (path0 err) (message err) fe)
            errs no_errors.

(** ** JSON text: [JSON.stringify] and [JSON.parse] *)

Module JSON.

(** A parsed JSON value.  A number keeps the text of its literal: no number
    ever reaches a booking.  An object is given by its members as written
    (of members with the same key JavaScript keeps the last value; no
    booking has two). *)
#[warnings="-register-all"]
Inductive json :=
| JNull
| JBool (b : bool)
| JNum (literal : jsstring)
| JStr (s : jsstring)
| JArr (elements : list json)
| JObj (members : list (jsstring * json)).

Definition hex_digit (n : N) : code_unit :=
  (if n <? 10 then 48 + n else 87 + n)%N.

(** [UnicodeEscape]: a backslash, [u] and four lowercase hexadecimal digits. *)
Definition unicode_escape (c : code_unit) : jsstring :=
  [92; 117; hex_digit ((c / 4096) mod 16); hex_digit ((c / 256) mod 16);
   hex_digit ((c / 16) mod 16); hex_digit (c mod 16)]%N.

Definition is_high (c : code_unit) : bool := ((55296 <=? c) && (c <=? 56319))%N.
Definition is_low (c : code_unit) : bool := ((56320 <=? c) && (c <=? 57343))%N.

(** One code point of [QuoteJSONString] that is a single code unit: the
    two-character escapes, then [UnicodeEscape] for the other control
    characters and for a surrogate that stands alone. *)
Definition quote_one (c : code_unit) : jsstring :=
  (if c =? 8 then [92; 98]
   else if c =? 9 then [92; 116]
   else if c =? 10 then [92; 110]
   else if c =? 12 then [92; 102]
   else if c =? 13 then [92; 114]
   else if c =? 34 then [92; 34]
   else if c =? 92 then [92; 92]
   else if (c <? 32) || is_high c || is_low c then unicode_escape c
   else [c])%N.

(** The code points of the string in turn: a high surrogate followed by a
    low one is one code point and is copied. *)
Fixpoint quote_body (s : jsstring) : jsstring :=
  match s with
  | [] => []
  | c :: r =>
      if is_high c then
        match r with
        | l :: r' =>
            if is_low l then c :: l :: quote_body r'
            else unicode_escape c ++ quote_body r
        | [] => unicode_escape c
        end
      else quote_one c ++ quote_body r
  end.

(** [QuoteJSONString] *)
Definition quote (s : jsstring) : jsstring := 34%N :: quote_body s ++ [34%N].

Fixpoint join_comma (l : list jsstring) : jsstring :=
  match l with
  | [] => []
  | [x] => x
  | x :: r => x ++ 44%N :: join_comma r
  end.

(** [JSON.stringify] of a value, without indentation. *)
Fixpoint stringify (j : json) : jsstring :=
  match j with
  | JNull => lit "null"
  | JBool true => lit "true"
  | JBool false => lit "false"
  | JNum l => l
  | JStr s => quote s
  | JArr l => 91%N :: join_comma (List.map stringify l) ++ [93%N]
  | JObj ms =>
      123%N :: join_comma
                 (List.map (fun m => quote (fst m) ++ 58%N :: stringify (snd m)) ms)
        ++ [125%N]
  end.

(** *** Parsing *)

Definition is_json_ws (c : code_unit) : bool :=
  ((c =? 32) || (c =? 9) || (c =? 10) || (c =? 13))%N.

Fixpoint skip_ws (s : jsstring) : jsstring :=
  match s with
  | c :: r => if is_json_ws c then skip_ws r else s
  | [] => []
  end.

Definition hex_val (c : code_unit) : option N :=
  (if (48 <=? c) && (c <=? 57) then Some (c - 48)
   else if (97 <=? c) && (c <=? 102) then Some (c - 87)
   else if (65 <=? c) && (c <=? 70) then Some (c - 55)
   else None)%N.

Definition hex4 (a b c d : code_unit) : option code_unit :=
  match hex_val a, hex_val b, hex_val c, hex_val d with
  | Some x, Some y, Some z, Some w => Some (x * 4096 + y * 256 + z * 16 + w)%N
  | _, _, _, _ => None
  end.

(** The character after a backslash, for the escapes of one character. *)
Definition simple_escape (e : code_unit) : option code_unit :=
  (if e =? 34 then Some 34
   else if e =? 92 then Some 92
   else if e =? 47 then Some 47
   else if e =? 98 then Some 8
   else if e =? 102 then Some 12
   else if e =? 110 then Some 10
   else if e =? 114 then Some 13
   else if e =? 116 then Some 9
   else None)%N.

Definition cons_fst {A B} (a : A) (r : option (list A * B)) : option (list A * B) :=
  match r with
  | Some (l, x) => Some (a :: l, x)
  | None => None
  end.

(** The characters of a string literal after its opening quote, up to and
    including the closing quote. *)
Fixpoint parse_chars (s : jsstring) : option (jsstring * jsstring) :=
  match s with
  | [] => None
  | c :: r =>
      if (c =? 34)%N then Some ([], r)
      else if (c =? 92)%N then
        match r with
        | [] => None
        | e :: r' =>
            if (e =? 117)%N then
              match r' with
              | h1 :: h2 :: h3 :: h4 :: r'' =>
                  match hex4 h1 h2 h3 h4 with
                  | Some u => cons_fst u (parse_chars r'')
                  | None => None
                  end
              | _ => None
              end
            else
              match simple_escape e with
              | Some u => cons_fst u (parse_chars r')
              | None => None
              end
        end
      else if (c <? 32)%N then None
      else cons_fst c (parse_chars r)
  end.

Definition is_digit (c : code_unit) : bool := ((48 <=? c) && (c <=? 57))%N.

Fixpoint span_digits (s : jsstring) : jsstring * jsstring :=
  match s with
  | c :: r =>
      if is_digit c then let (d, r') := span_digits r in (c :: d, r')
      else ([], s)
  | [] => ([], [])
  end.

(** One or more digits. *)
Definition digits1 (s : jsstring) : option (jsstring * jsstring) :=
  match span_digits s with
  | ([], _) => None
  | (d, r) => Some (d, r)
  end.

(** The integer part: a single zero, or a non-zero digit and more digits. *)
Definition number_int (s : jsstring) : option (jsstring * jsstring) :=
  match s with
  | c :: r =>
      if (c =? 48)%N then Some ([c], r)
      else if is_digit c then let (d, r') := span_digits r in Some (c :: d, r')
      else None
  | [] => None
  end.

Definition number_frac (s : jsstring) : option (jsstring * jsstring) :=
  match s with
  | c :: r =>
      if (c =? 46)%N then cons_fst c (digits1 r) else Some ([], s)
  | [] => Some ([], s)
  end.

Definition number_exp (s : jsstring) : option (jsstring * jsstring) :=
  match s with
  | c :: r =>
      if ((c =? 101) || (c =? 69))%N then
        match r with
        | g :: r' =>
            if ((g =? 43) || (g =? 45))%N then cons_fst c (cons_fst g (digits1 r'))
            else cons_fst c (digits1 r)
        | [] => None
        end
      else Some ([], s)
  | [] => Some ([], s)
  end.

(** A number literal; the result is its text. *)
Definition parse_number (s : jsstring) : option (jsstring * jsstring) :=
  let '(sign, s0) :=
    match s with
    | c :: r => if (c =? 45)%N then ([c], r) else ([], s)
    | [] => ([], s)
    end in
  match number_int s0 with
  | Some (i, s1) =>
      match number_frac s1 with
      | Some (f, s2) =>
          match number_exp s2 with
          | Some (e, s3) => Some (sign ++ i ++ f ++ e, s3)
          | None => None
          end
      | None => None
      end
  | None => None
  end.

(** [s] starts with the word [w]; the rest of [s]. *)
Fixpoint expect (w s : jsstring) : option jsstring :=
  match w, s with
  | [], _ => Some s
  | x :: w', y :: s' => if cu_eqb x y then expect w' s' else None
  | _ :: _, [] => None
  end.

(** One value, given the parsers of what follows an opening bracket and an
    opening brace. *)
Definition value_step
  (elements : jsstring -> option (list json * jsstring))
  (members : jsstring -> option (list (jsstring * json) * jsstring))
  (s : jsstring) : option (json * jsstring) :=
  match skip_ws s with
  | [] => None
  | c :: r =>
      if (c =? 34)%N then
        match parse_chars r with
        | Some (str, r') => Some (JStr str, r')
        | None => None
        end
      else if (c =? 91)%N then
        match skip_ws r with
        | c' :: r' =>
            if (c' =? 93)%N then Some (JArr [], r')
            else
              match elements r with
              | Some (l, r'') => Some (JArr l, r'')
              | None => None
              end
        | [] => None
        end
      else if (c =? 123)%N then
        match skip_ws r with
        | c' :: r' =>
            if (c' =? 125)%N then Some (JObj [], r')
            else
              match members r with
              | Some (l, r'') => Some (JObj l, r'')
              | None => None
              end
        | [] => None
        end
      else if (c =? 116)%N then
        match expect (lit "rue") r with
        | Some r' => Some (JBool true, r')
        | None => None
        end
      else if (c =? 102)%N then
        match expect (lit "alse") r with
        | Some r' => Some (JBool false, r')
        | None => None
        end
      else if (c =? 110)%N then
        match expect (lit "ull") r with
        | Some r' => Some (JNull, r')
        | None => None
        end
      else
        match parse_number (c :: r) with
        | Some (l, r') => Some (JNum l, r')
        | None => None
        end
  end.

(** The elements of an array up to its closing bracket: a value, then a
    comma and more elements, or the bracket. *)
Definition elements_step
  (value : jsstring -> option (json * jsstring))
  (elements : jsstring -> option (list json * jsstring))
  (s : jsstring) : option (list json * jsstring) :=
  match value s with
  | Some (v, r) =>
      match skip_ws r with
      | c :: r' =>
          if (c =? 44)%N then cons_fst v (elements r')
          else if (c =? 93)%N then Some ([v], r')
          else None
      | [] => None
      end
  | None => None
  end.

(** The members of an object up to its closing brace: a key, a colon, a
    value, then a comma and more members, or the brace. *)
Definition members_step
  (value : jsstring -> option (json * jsstring))
  (members : jsstring -> option (list (jsstring * json) * jsstring))
  (s : jsstring) : option (list (jsstring * json) * jsstring) :=
  match skip_ws s with
  | q :: r0 =>
      if (q =? 34)%N then
        match parse_chars r0 with
        | Some (k, r1) =>
            match skip_ws r1 with
            | c1 :: r2 =>
                if (c1 =? 58)%N then
                  match value r2 with
                  | Some (v, r3) =>
                      match skip_ws r3 with
                      | c :: r' =>
                          if (c =? 44)%N then cons_fst (k, v) (members r')
                          else if (c =? 125)%N then Some ([(k, v)], r')
                          else None
                      | [] => None
                      end
                  | None => None
                  end
                else None
            | [] => None
            end
        | None => None
        end
      else None
  | [] => None
  end.

(** The three parsers call each other; [fuel] bounds the depth of the
    calls. *)
Fixpoint parse_value (fuel : nat) (s : jsstring) {struct fuel}
  : option (json * jsstring) :=
  match fuel with
  | O => None
  | S f => value_step (parse_elements f) (parse_members f) s
  end

with parse_elements (fuel : nat) (s : jsstring) {struct fuel}
  : option (list json * jsstring) :=
  match fuel with
  | O => None
  | S f => elements_step (parse_value f) (parse_elements f) s
  end

with parse_members (fuel : nat) (s : jsstring) {struct fuel}
  : option (list (jsstring * json) * jsstring) :=
  match fuel with
  | O => None
  | S f => members_step (parse_value f) (parse_members f) s
  end.

(** Enough fuel for any text: a call either reads a character or is
    followed by one that does. *)
Definition fuel_for (s : jsstring) : nat := 2 * length s + 2.

(** [JSON.parse]: one value between optional white space.  [None] is the
    thrown [SyntaxError]. *)
Definition parse (s : jsstring) : option json :=
  match parse_value (fuel_for s) s with
  | Some (v, r) =>
      match skip_ws r with
      | [] => Some v
      | _ :: _ => None
      end
  | None => None
  end.

End JSON.
Import JSON.

(** ** The stored collection as JSON *)

(** A booking as [JSON.stringify] sees it: a plain object whose own
    properties are, in creation order, [id], [name], [date], [service]. *)
Definition json_of_booking (b : Booking) : json :=
  JObj [(lit "id", JStr (id b)); (lit "name", JStr (name b));
        (lit "date", JStr (date b)); (lit "service", JStr (service b))].

(** [JSON.stringify(items)] *)
Definition JSON_stringify (items : list Booking) : jsstring :=
  stringify (JArr (List.map json_of_booking items)).

(** The reading of a parsed value at the type [Booking]: an object with
    exactly the four string properties, in the order the application
    writes them.  The reading loses nothing ([json_of_booking] gives the
    value back), so that what [JSON.stringify] writes for the record is what
    it writes for the object.  An object with other properties, or with
    these in another order, is another JavaScript value, which
    [JSON.stringify] writes back differently: it is not read as a record
    but kept as it is (see [Untyped]). *)
Definition booking_of_json (j : json) : option Booking :=
  match j with
  | JObj [(k1, JStr a); (k2, JStr b); (k3, JStr c); (k4, JStr d)] =>
      if str_eqb k1 (lit "id") && str_eqb k2 (lit "name")
         && str_eqb k3 (lit "date") && str_eqb k4 (lit "service")
      then Some (mkBooking a b c d)
      else None
  | _ => None
  end.

Fixpoint traverse {A B} (f : A -> option B) (l : list A) : option (list B) :=
  match l with
  | [] => Some []
  | x :: r =>
      match f x, traverse f r with
      | Some y, Some r' => Some (y :: r')
      | _, _ => None
      end
  end.

Definition bookings_of_json (j : json) : option (list Booking) :=
  match j with
  | JArr l => traverse booking_of_json l
  | _ => None
  end.

(** What [const parsed: Booking[] = JSON.parse(stored)] can do.  The
    annotation is not checked at run time: [parsed] is whatever value the
    text denotes, a collection of the model ([ParsedBookings]) or not
    ([ParsedOther]). *)
Inductive Parsed :=
| ParsedBookings (items : list Booking)
| ParsedOther (j : json)
| ParseThrows.

Definition JSON_parse (stored : jsstring) : Parsed :=
  match parse stored with
  | None => ParseThrows
  | Some j =>
      match bookings_of_json j with
      | Some items => ParsedBookings items
      | None => ParsedOther j
      end
  end.

(** ** Component state and its environment *)

Module UI.

(** The [useState] cells of [App]. *)
Record State := mkState {
  name : jsstring;
  selectedDate : option Date;
  service : jsstring;
  errors : FormErrors;
  bookings : list Booking;
  showDatePicker : bool;
  searchQuery : jsstring;
  isLoading : bool;
  isSyncing : bool;
  refreshing : bool
}.

(** Updates of one cell, the others kept. *)
Definition set_name (v : jsstring) (u : State) : State :=
  mkState v (selectedDate u) (service u) (errors u) (bookings u)
          (showDatePicker u) (searchQuery u) (isLoading u) (isSyncing u) (refreshing u).
Definition set_selectedDate (v : option Date) (u : State) : State :=
  mkState (name u) v (service u) (errors u) (bookings u)
          (showDatePicker u) (searchQuery u) (isLoading u) (isSyncing u) (refreshing u).
Definition set_service (v : jsstring) (u : State) : State :=
  mkState (name u) (selectedDate u) v (errors u) (bookings u)
          (showDatePicker u) (searchQuery u) (isLoading u) (isSyncing u) (refreshing u).
Definition set_errors (v : FormErrors) (u : State) : State :=
  mkState (name u) (selectedDate u) (service u) v (bookings u)
          (showDatePicker u) (searchQuery u) (isLoading u) (isSyncing u) (refreshing u).
Definition set_bookings (v : list Booking) (u : State) : State :=
  mkState (name u) (selectedDate u) (service u) (errors u) v
          (showDatePicker u) (searchQuery u) (isLoading u) (isSyncing u) (refreshing u).
Definition set_showDatePicker (v : bool) (u : State) : State :=
  mkState (name u) (selectedDate u) (service u) (errors u) (bookings u)
          v (searchQuery u) (isLoading u) (isSyncing u) (refreshing u).
Definition set_searchQuery (v : jsstring) (u : State) : State :=
  mkState (name u) (selectedDate u) (service u) (errors u) (bookings u)
          (showDatePicker u) v (isLoading u) (isSyncing u) (refreshing u).
Definition set_isLoading (v : bool) (u : State) : State :=
  mkState (name u) (selectedDate u) (service u) (errors u) (bookings u)
          (showDatePicker u) (searchQuery u) v (isSyncing u) (refreshing u).
Definition set_isSyncing (v : bool) (u : State) : State :=
  mkState (name u) (selectedDate u) (service u) (errors u) (bookings u)
          (showDatePicker u) (searchQuery u) (isLoading u) v (refreshing u).
Definition set_refreshing (v : bool) (u : State) : State :=
  mkState (name u) (selectedDate u) (service u) (errors u) (bookings u)
          (showDatePicker u) (searchQuery u) (isLoading u) (isSyncing u) v.

(** The state of the first render. *)
Definition initial : State :=
  mkState [] None (lit "Haircut") no_errors [] false [] false false false.

End UI.

Inductive exn :=
| StorageError      (* a rejected AsyncStorage promise *)
| SyntaxError.      (* thrown by JSON.parse *)

(** What the component can observe and change outside itself: the
    key-value storage, whether the storage currently rejects its calls, the
    clock read by [Date.now()], the alerts shown and the console. *)
Record World := mkWorld {
  kv : list (jsstring * jsstring);
  storage_fails : bool;
  now : N;
  alerts : list (jsstring * jsstring);
  console : list (jsstring * exn)
}.

Definition put_kv (v : list (jsstring * jsstring)) (w : World) : World :=
  mkWorld v (storage_fails w) (now w) (alerts w) (console w).
Definition put_alerts (v : list (jsstring * jsstring)) (w : World) : World :=
  mkWorld (kv w) (storage_fails w) (now w) v (console w).
Definition put_console (v : list (jsstring * exn)) (w : World) : World :=
  mkWorld (kv w) (storage_fails w) (now w) (alerts w) v.

Record Sys := mkSys { ui : UI.State; world : World }.

Fixpoint kv_get (k : jsstring) (m : list (jsstring * jsstring)) : option jsstring :=
  match m with
  | [] => None
  | (k', v) :: r => if str_eqb k k' then Some v else kv_get k r
  end.

Definition kv_set (k v : jsstring) (m : list (jsstring * jsstring))
  : list (jsstring * jsstring) :=
  (k, v) :: filter (fun p => negb (str_eqb k (fst p))) m.

(** The blob of the application in the storage. *)
Definition stored_blob (s : Sys) : option jsstring :=
  kv_get STORAGE_KEY (kv (world s)).

(** ** A monad for the handlers: state and exceptions *)

Inductive outcome (A : Type) :=
| Returned (a : A)
| Thrown (e : exn)
| Untyped (v : json).   (* ran on, with the value [v] in the [bookings] cell *)
Arguments Returned {A} a.
Arguments Thrown {A} e.
Arguments Untyped {A} v.

Definition M (A : Type) := Sys -> outcome A * Sys.

Definition ret {A} (a : A) : M A := fun s => (Returned a, s).

Definition bind {A B} (m : M A) (k : A -> M B) : M B :=
  fun s =>
    match m s with
    | (Returned a, s') => k a s'
    | (Thrown e, s') => (Thrown e, s')
    | (Untyped v, s') => (Untyped v, s')
    end.

Definition throw {A} (e : exn) : M A := fun s => (Thrown e, s).
(** [setBookings(v)] for a value [v] that is not a collection of the model.
    The typed cell cannot hold [v] and is left as it was: it is not to be
    read in the state that comes with [Untyped v].  The call is the last
    statement of its block in the source. *)
Definition setBookings_untyped {A} (v : json) : M A := fun s => (Untyped v, s).

Declare Scope handler_scope.
Delimit Scope handler_scope with handler.
Notation "x <- m ;; k" := (bind m (fun x => k))
  (at level 61, m at next level, right associativity) : handler_scope.
Notation "m ;; k" := (bind m (fun _ => k))
  (at level 61, right associativity) : handler_scope.
Local Open Scope handler_scope.

(** [try { body } catch (error) { handler } finally { fin }] *)
Definition try_catch_finally {A} (body : M A) (handler : exn -> M A) (fin : M unit)
  : M A :=
  fun s =>
    let after (r : outcome A * Sys) : outcome A * Sys :=
      match r with
      | (o, s') =>
          match fin s' with
          | (Returned _, s'') => (o, s'')
          | (Thrown e, s'') => (Thrown e, s'')
          | (Untyped v, s'') => (Untyped v, s'')
          end
      end in
    match body s with
    | (Thrown e, s') => after (handler e s')
    | r => after r
    end.

Definition get_ui : M UI.State := fun s => (Returned (ui s), s).
Definition get_world : M World := fun s => (Returned (world s), s).
Definition modify_ui (f : UI.State -> UI.State) : M unit :=
  fun s => (Returned tt, mkSys (f (ui s)) (world s)).
Definition modify_world (f : World -> World) : M unit :=
  fun s => (Returned tt, mkSys (ui s) (f (world s))).

(** The setters of the [useState] cells. *)
Definition setName (v : jsstring) : M unit := modify_ui (UI.set_name v).
Definition setSelectedDate (v : option Date) : M unit := modify_ui (UI.set_selectedDate v).
Definition setService (v : jsstring) : M unit := modify_ui (UI.set_service v).
Definition setErrors (v : FormErrors) : M unit := modify_ui (UI.set_errors v).
Definition setBookings (v : list Booking) : M unit := modify_ui (UI.set_bookings v).
Definition setShowDatePicker (v : bool) : M unit := modify_ui (UI.set_showDatePicker v).
Definition setSearchQuery (v : jsstring) : M unit := modify_ui (UI.set_searchQuery v).
Definition setIsLoading (v : bool) : M unit := modify_ui (UI.set_isLoading v).
Definition setIsSyncing (v : bool) : M unit := modify_ui (UI.set_isSyncing v).
Definition setRefreshing (v : bool) : M unit := modify_ui (UI.set_refreshing v).

(** [await AsyncStorage.getItem(key)]: the value, [null] when the key is
    absent, or a rejection. *)
Definition AsyncStorage_getItem (key : jsstring) : M (option jsstring) :=
  w <- get_world ;;
  if storage_fails w then throw StorageError
  else ret (kv_get key (kv w)).

(** [await AsyncStorage.setItem(key, value)]; a rejected write leaves the
    storage as it was. *)
Definition AsyncStorage_setItem (key value : jsstring) : M unit :=
  w <- get_world ;;
  if storage_fails w then throw StorageError
  else modify_world (put_kv (kv_set key value (kv w))).

(** [Alert.alert(title, message)] *)
Definition Alert_alert (title msg : jsstring) : M unit :=
  modify_world (fun w => put_alerts (alerts w ++ [(title, msg)]) w).

(** [console.error(text, error)] *)
Definition console_error (text : jsstring) (e : exn) : M unit :=
  modify_world (fun w => put_console (console w ++ [(text, e)]) w).

(** [Date.now()] *)
Definition Date_now : M N := w <- get_world ;; ret (now w).

(** ** The handlers of [App] *)

(** [loadBookings(opts)]; [opts?.showLoading ?? true] *)
Definition loadBookings (opts : option bool) : M unit :=
  let showLoading := match opts with Some b => b | None => true end in
  (if showLoading then setIsLoading true else setRefreshing true) ;;
  try_catch_finally
    (stored <- AsyncStorage_getItem STORAGE_KEY ;;
     match stored with
     | None | Some [] => setBookings []               (* !stored *)
     | Some blob =>
         match JSON_parse blob with
         | ParsedBookings parsed => setBookings parsed
         | ParsedOther v => setBookings_untyped v
         | ParseThrows => throw SyntaxError
         end
     end)
    (fun error =>
       console_error (lit "Failed to load bookings") error ;;
       Alert_alert (lit "Error") (lit "Could not load bookings. Please try again."))
    (if showLoading then setIsLoading false else setRefreshing false).

(** [persistBookings(items)] *)
Definition persistBookings (items : list Booking) : M unit :=
  try_catch_finally
    (setIsSyncing true ;;
     AsyncStorage_setItem STORAGE_KEY (JSON_stringify items))
    (fun error =>
       console_error (lit "Failed to save bookings") error ;;
       Alert_alert (lit "Error") (lit "Could not save bookings. Please try again."))
    (setIsSyncing false).

(** The record built by [handleSubmit] from the validated data and the
    clock. *)
Definition newBooking (t : N) (data : FormData) : Booking :=
  mkBooking (toString t) (trim (data_name data))
            (toISOString (data_date data)) (data_service data).

(** [handleSubmit()] *)
Definition handleSubmit : M unit :=
  u <- get_ui ;;
  let validation :=
    safeParse (mkFormInput (UI.name u) (UI.selectedDate u) (Some (UI.service u))) in
  match validation with
  | Failure errs => setErrors (fieldErrors_of errs)
  | Success data =>
      t <- Date_now ;;
      let updatedBookings := newBooking t data :: UI.bookings u in
      setBookings updatedBookings ;;
      persistBookings updatedBookings ;;
      setName [] ;;
      setSelectedDate None ;;
      setService (lit "Haircut") ;;           (* SERVICE_OPTIONS[0] *)
      setErrors no_errors
  end.

(** [handleDelete(id)] *)
Definition handleDelete (id0 : jsstring) : M unit :=
  u <- get_ui ;;
  let filtered := filter (fun booking => negb (str_eqb (id booking) id0)) (UI.bookings u) in
  setBookings filtered ;;
  persistBookings filtered.

(** ** Search *)

Section Search.

(** [String.prototype.toLowerCase] *)
Variable toLowerCase : jsstring -> jsstring.

(** The predicate of the [filter] call that computes [filteredBookings]. *)
Definition matches (searchQuery : jsstring) (booking : Booking) : bool :=
  if is_empty (trim searchQuery) then true
  else
    let q := toLowerCase searchQuery in
    includes (toLowerCase (name booking)) q
    || includes (toLowerCase (service booking)) q.

(** [filteredBookings] *)
Definition filteredBookings (u : UI.State) : list Booking :=
  filter (matches (UI.searchQuery u)) (UI.bookings u).

End Search.

(** Lower-casing of the letters A..Z, which is what [toLowerCase] does on a
    string of ASCII characters.  Used to run the search on examples. *)
Definition toLowerCase_ascii (s : jsstring) : jsstring :=
  List.map (fun c => if ((65 <=? c) && (c <=? 90))%N then (c + 32)%N else c) s.

(** ** Notions used by the statements *)

(** Empty or made of white space only. *)
Definition blank (s : jsstring) : Prop := Forall (fun c => isWhiteSpace c = true) s.

(** [l] is [m] with some elements left out, the others in the same order. *)
Inductive Subseq {A : Type} : list A -> list A -> Prop :=
| Subseq_nil : Subseq [] []
| Subseq_skip x l m : Subseq l m -> Subseq l (x :: m)
| Subseq_keep x l m : Subseq l m -> Subseq (x :: l) (x :: m).

(** Validation reports an issue on field [f]. *)
Definition issue_on (f : Field) (r : SafeParse) : Prop :=
  exists errs m, r = Failure errs /\ In (mkIssue f m) errs.

(** The constraints of the data model on a stored booking: a name that is
    not empty once trimmed, a service of the enum. *)
Definition valid_booking (b : Booking) : bool :=
  negb (is_empty (trim (name b))) && is_service (service b).

(** The collection in memory: the [bookings] cell. *)
Definition memory (s : Sys) : list Booking := UI.bookings (ui s).

(** The persisted blob holds no booking that breaks the constraints: it is
    absent, or is not JSON (a load then fails and changes nothing), or is
    an array of valid bookings. *)
Definition blob_ok (blob : option jsstring) : Prop :=
  match blob with
  | None => True
  | Some txt =>
      match JSON_parse txt with
      | ParsedBookings items => forallb valid_booking items = true
      | ParsedOther _ => False
      | ParseThrows => True
      end
  end.

(** The store invariant, on the collection in memory and on its persisted
    form. *)
Definition store_ok (s : Sys) : Prop :=
  forallb valid_booking (memory s) = true /\ blob_ok (stored_blob s).

(** The operations that call [setBookings]. *)
Inductive Op :=
| Load (opts : option bool)
| Insert
| Delete (id0 : jsstring).

Definition run (o : Op) : M unit :=
  match o with
  | Load opts => loadBookings opts
  | Insert => handleSubmit
  | Delete id0 => handleDelete id0
  end.

(** The form holds an input that passes [bookingSchema]. *)
Definition form_valid (u : UI.State) (d : Date) : Prop :=
  trim (UI.name u) <> [] /\ UI.selectedDate u = Some d
  /\ In (UI.service u) SERVICE_OPTIONS.

(** The record that [handleSubmit] creates from a valid form. *)
Definition created (s : Sys) (d : Date) : Booking :=
  mkBooking (toString (now (world s))) (trim (UI.name (ui s)))
            (toISOString d) (UI.service (ui s)).

(** [load()] fails: the read is rejected or the stored text is not JSON. *)
Definition load_fails (s : Sys) : Prop :=
  storage_fails (world s) = true
  \/ exists blob, stored_blob s = Some blob /\ blob <> [] /\ JSON_parse blob = ParseThrows.

Definition load_alert : jsstring * jsstring :=
  (lit "Error", lit "Could not load bookings. Please try again.").
Definition save_alert : jsstring * jsstring :=
  (lit "Error", lit "Could not save bookings. Please try again.").

(** The filter as the specification words it: a record is kept when its
    name or its service contains the query, letter case apart. *)
Definition contains_ci (lower : jsstring -> jsstring) (field q : jsstring) : bool :=
  includes (lower field) (lower q).

Definition search_by_spec (lower : jsstring -> jsstring) (q : jsstring)
  (items : list Booking) : list Booking :=
  filter (fun b => contains_ci lower (name b) q || contains_ci lower (service b) q)
         items.

(** All the issues of an input, in the order of the shape. *)
Definition all_issues (i : FormInput) : list Issue :=
  issues_of (schema_name (in_name i)) ++ issues_of (schema_date (in_date i))
    ++ issues_of (schema_service (in_service i)).

(** *** The states the handlers end in *)

(** After [persistBookings(items)], when the write went through and when it
    was rejected. *)
Definition saved (items : list Booking) (s : Sys) : Sys :=
  mkSys (UI.set_isSyncing false (ui s))
        (put_kv (kv_set STORAGE_KEY (JSON_stringify items) (kv (world s))) (world s)).

Definition save_failed (s : Sys) : Sys :=
  mkSys (UI.set_isSyncing false (ui s))
        (put_alerts (alerts (world s) ++ [save_alert])
           (put_console (console (world s) ++ [(lit "Failed to save bookings", StorageError)])
              (world s))).

(** After [handleSubmit] on a form that passes validation, and on one that
    does not. *)
Definition submitted (d : Date) (s : Sys) : Sys :=
  let items := created s d :: memory s in
  let after := if storage_fails (world s) then save_failed s else saved items s in
  mkSys (UI.set_errors no_errors
           (UI.set_service (lit "Haircut")
              (UI.set_selectedDate None
                 (UI.set_name [] (UI.set_bookings items (ui after))))))
        (world after).

Definition rejected (errs : list Issue) (s : Sys) : Sys :=
  mkSys (UI.set_errors (fieldErrors_of errs) (ui s)) (world s).

(** After [handleDelete(id0)]. *)
Definition kept (id0 : jsstring) (items : list Booking) : list Booking :=
  filter (fun booking => negb (str_eqb (id booking) id0)) items.

Definition deleted (id0 : jsstring) (s : Sys) : Sys :=
  let items := kept id0 (memory s) in
  let s1 := mkSys (UI.set_bookings items (ui s)) (world s) in
  if storage_fails (world s) then save_failed s1 else saved items s1.

(** After [loadBookings(opts)]. *)
Definition showLoading (opts : option bool) : bool :=
  match opts with Some b => b | None => true end.

Definition begin_loading (opts : option bool) (u : UI.State) : UI.State :=
  if showLoading opts then UI.set_isLoading true u else UI.set_refreshing true u.

Definition end_loading (opts : option bool) (u : UI.State) : UI.State :=
  if showLoading opts then UI.set_isLoading false u else UI.set_refreshing false u.

Definition loaded (opts : option bool) (items : list Booking) (s : Sys) : Sys :=
  mkSys (end_loading opts (UI.set_bookings items (ui s))) (world s).

Definition load_failed (opts : option bool) (e : exn) (s : Sys) : Sys :=
  mkSys (end_loading opts (ui s))
        (put_alerts (alerts (world s) ++ [load_alert])
           (put_console (console (world s) ++ [(lit "Failed to load bookings", e)])
              (world s))).

(** *** The life of the component *)

(** One step: an operation on the store, an edit of a cell other than the
    collection (the form, the search box, the picker), or a change of the
    environment that does not write the storage (the clock, the storage
    going down or coming back). *)
Inductive step : Sys -> Sys -> Prop :=
| step_run o s : step s (snd (run o s))
| step_edit u' s : UI.bookings u' = memory s -> step s (mkSys u' (world s))
| step_env w' s : kv w' = kv (world s) -> step s (mkSys (ui s) w').

(** The states the component reaches from its first render over a storage
    that holds nothing under [STORAGE_KEY]. *)
Inductive reachable : Sys -> Prop :=
| reach_init w : kv_get STORAGE_KEY (kv w) = None -> reachable (mkSys UI.initial w)
| reach_step s s' : reachable s -> step s s' -> reachable s'.

(** What a run with fuel [f] found is found again with any fuel that is at
    least twice the number of characters read. *)
Definition value_enough (f : nat) : Prop :=
  forall s v r, parse_value f s = Some (v, r) ->
    (length r < length s)%nat
    /\ forall f', (2 * (length s - length r) <= S f')%nat ->
                  parse_value f' s = Some (v, r).

Definition elements_enough (f : nat) : Prop :=
  forall s l r, parse_elements f s = Some (l, r) ->
    (length r < length s)%nat
    /\ forall f', (2 * (length s - length r) <= f')%nat ->
                  parse_elements f' s = Some (l, r).

Definition members_enough (f : nat) : Prop :=
  forall s l r, parse_members f s = Some (l, r) ->
    (length r < length s)%nat
    /\ forall f', (2 * (length s - length r) <= f')%nat ->
                  parse_members f' s = Some (l, r).

(** Members of a JSON object whose values are strings, and their text. *)
Definition str_member (m : jsstring * jsstring) : jsstring * json :=
  (fst m, JStr (snd m)).

Definition member_text (m : jsstring * json) : jsstring :=
  quote (fst m) ++ 58%N :: stringify (snd m).

Definition fields (b : Booking) : list (jsstring * jsstring) :=
  [(lit "id", id b); (lit "name", name b); (lit "date", date b);
   (lit "service", service b)].

(** Concrete data for the examples. *)
Module Ex.

Definition alice : Booking :=
  mkBooking (lit "1714521600000") (lit "Alice") (lit "2024-05-01T00:00:00.000Z")
            (lit "Haircut").
Definition bob : Booking :=
  mkBooking (lit "1700000000001") (lit "Bob Jones") (lit "2023-11-14T22:13:20.001Z")
            (lit "Massage").
Definition ann : Booking :=
  mkBooking (lit "1700000000002") (lit "Ann") (lit "2023-11-14T22:13:20.002Z")
            (lit "Consultation").
(** A record that the form could not have created: its name is empty. *)
Definition stray : Booking :=
  mkBooking (lit "1") [] (lit "2020-01-01T00:00:00.000Z") (lit "Haircut").

Definition world0 : World := mkWorld [] false 1714521600000 [] [].

(** A form filled with Alice, over a store that holds Bob and Ann. *)
Definition filled : Sys :=
  mkSys (UI.mkState (lit "  Alice ") (Some 1714521600000%Z) (lit "Haircut")
           no_errors [bob; ann] false [] false false false)
        world0.

(** The same with a name made of spaces. *)
Definition spaces : Sys :=
  mkSys (UI.mkState (lit "   ") (Some 1714521600000%Z) (lit "Haircut")
           no_errors [bob; ann] false [] false false false)
        world0.

(** The storage rejects its calls. *)
Definition broken : Sys :=
  mkSys (ui filled) (mkWorld [] true 1714521600000 [] []).

(** Bob and Ann in memory, a search typed in. *)
Definition searching (q : jsstring) : Sys :=
  mkSys (UI.mkState [] None (lit "Haircut") no_errors [bob; ann] false q
           false false false)
        world0.

(** A fresh component over a storage that something else wrote. *)
Definition foreign : Sys :=
  mkSys UI.initial
        (mkWorld [(STORAGE_KEY, JSON_stringify [stray])] false 0 [] []).

(** A stored text that is not JSON. *)
Definition garbled : Sys :=
  mkSys (ui filled) (mkWorld [(STORAGE_KEY, lit "[{")] false 0 [] []).

End Ex.

(** ** The other callbacks of [App] *)

(** [setErrors((prev) => ...)]: the update is computed from the cell. *)
Definition updateErrors (f : FormErrors -> FormErrors) : M unit :=
  modify_ui (fun u => UI.set_errors (f (UI.errors u)) u).

(** [{ ...prev, <field>: undefined }] *)
Definition clear_error (f : Field) (e : FormErrors) : FormErrors :=
  match f with
  | FName => mkFormErrors None (err_date e) (err_service e)
  | FDate => mkFormErrors (err_name e) None (err_service e)
  | FService => mkFormErrors (err_name e) (err_date e) None
  end.

(** [handleDateChange(event, date)]; [event_type] is [event.type], [None]
    is a call without a date. *)
Definition handleDateChange (event_type : jsstring) (date0 : option Date) : M unit :=
  if str_eqb event_type (lit "dismissed") then setShowDatePicker false
  else
    match date0 with
    | Some d =>
        setSelectedDate (Some d) ;;
        updateErrors (clear_error FDate) ;;
        setShowDatePicker false
    | None => setShowDatePicker false
    end.

(** [onChangeText] of the name input. *)
Definition onChangeName (text : jsstring) : M unit :=
  setName text ;;
  updateErrors (clear_error FName).

(** [onPress] of the chip of the option [opt]. *)
Definition onPressService (opt : jsstring) : M unit :=
  setService opt ;;
  updateErrors (clear_error FService).

(** What the user and the platform can do to the mounted component. *)
Inductive Event :=
| Mount                                   (* useEffect: loadBookings({ showLoading: true }) *)
| Refresh                                 (* onRefresh: loadBookings({ showLoading: false }) *)
| ChangeName (text : jsstring)
| PressDateButton                         (* setShowDatePicker(true) *)
| DateChange (event_type : jsstring) (date0 : option Date)
| PressService (index : nat)              (* the chip of SERVICE_OPTIONS[index] *)
| PressSubmit                             (* disabled while isSyncing *)
| PressDelete (id0 : jsstring)
| ChangeSearch (text : jsstring).

(** The handler of an event, whole: what it does when no other event comes
    in while it waits for the storage. *)
Definition dispatch (e : Event) : M unit :=
  match e with
  | Mount => loadBookings (Some true)
  | Refresh => loadBookings (Some false)
  | ChangeName text => onChangeName text
  | PressDateButton => setShowDatePicker true
  | DateChange event_type date0 => handleDateChange event_type date0
  | PressService index =>
      match nth_error SERVICE_OPTIONS index with
      | Some opt => onPressService opt
      | None => ret tt
      end
  | PressSubmit =>
      u <- get_ui ;;
      if UI.isSyncing u then ret tt else handleSubmit
  | PressDelete id0 => handleDelete id0
  | ChangeSearch text => setSearchQuery text
  end.

(** The errors that a rejected submission leaves. *)
Definition expected_errors (u : UI.State) : FormErrors :=
  mkFormErrors
    (if is_empty (trim (UI.name u)) then Some (lit "Name is required") else None)
    (match UI.selectedDate u with
     | Some _ => None
     | None => Some (lit "Date is required")
     end)
    (if is_service (UI.service u) then None else Some (lit "Service is required")).

(** The entry of a [FormErrors] object for a field. *)
Definition error_of (f : Field) (e : FormErrors) : option jsstring :=
  match f with
  | FName => err_name e
  | FDate => err_date e
  | FService => err_service e
  end.

(** More data for the examples. *)
Module Ex2.

(** After a rejected submission: no name, no date. *)
Definition complained : Sys :=
  mkSys (UI.mkState [] None (lit "Massage")
           (mkFormErrors (Some (lit "Name is required")) (Some (lit "Date is required")) None)
           [Ex.bob; Ex.ann] true [] false false false)
        Ex.world0.

(** A form filled with Alice over a storage that holds Bob and Ann and
    rejects its calls. *)
Definition offline : Sys :=
  mkSys (ui Ex.filled)
        (mkWorld [(STORAGE_KEY, JSON_stringify [Ex.bob; Ex.ann]); (lit "theme", lit "dark")]
                 true 1714521600000 [] []).

(** The same when the storage works. *)
Definition online : Sys :=
  mkSys (ui Ex.filled)
        (mkWorld [(STORAGE_KEY, JSON_stringify [Ex.bob; Ex.ann]); (lit "theme", lit "dark")]
                 false 1714521600000 [] []).

(** Alice submitted, the form filled again within the same millisecond. *)
Definition refilled : Sys :=
  mkSys (UI.mkState (lit "Carol") (Some 0%Z) (lit "Massage") no_errors
           [Ex.alice; Ex.bob; Ex.ann] false [] false false false)
        Ex.world0.

(** A record with a short name and a short service, and a search over it. *)
Definition al : Booking :=
  mkBooking (lit "7") (lit "Al") (lit "2020-01-01T00:00:00.000Z") (lit "X").

Definition looking_for (q : jsstring) : Sys :=
  mkSys (UI.mkState [] None (lit "Haircut") no_errors [al] false q
           false false false)
        Ex.world0.

End Ex2.

(** The JavaScript value of a collection of the model. *)
Definition json_of_bookings (items : list Booking) : json :=
  JArr (List.map json_of_booking items).

(** The value of the [bookings] cell after a handler: the collection in
    memory, or the value that [Untyped] reports; nothing is said after an
    exception. *)
Definition cell_after (r : outcome unit * Sys) : option json :=
  match fst r with
  | Returned _ => Some (json_of_bookings (memory (snd r)))
  | Untyped v => Some v
  | Thrown _ => None
  end.

(** The spinner that [loadBookings(opts)] raised is down. *)
Definition spinner_down (opts : option bool) (u : UI.State) : Prop :=
  if showLoading opts then UI.isLoading u = false else UI.refreshing u = false.

(** Data for the examples of a load. *)
Module Ex3.

(** Bob and Ann in memory, over a storage that holds [blob]. *)
Definition over (blob : jsstring) : Sys :=
  mkSys (ui Ex.filled) (mkWorld [(STORAGE_KEY, blob)] false 0 [] []).

(** Alice as [JSON.stringify] writes her, with white space added. *)
Definition spaced : jsstring :=
  lit " [ " ++ stringify (json_of_booking Ex.alice) ++ lit " ] ".

(** Alice with her properties in another order. *)
Definition reordered : json :=
  JArr [JObj [(lit "name", JStr (lit "Alice")); (lit "id", JStr (lit "1714521600000"));
              (lit "date", JStr (lit "2024-05-01T00:00:00.000Z"));
              (lit "service", JStr (lit "Haircut"))]].

End Ex3.

(** ** Handlers suspended at their [await] *)

(** An [async] handler runs up to its [await], gives the hand back to the
    screen, which renders and takes other events, and runs on when the
    storage answers.  Each handler of the source has one [await] on its
    path; nothing in the part after it reads a cell. *)

(** [loadBookings(opts)] up to [await AsyncStorage.getItem], and from the
    answer on. *)
Definition loadBookings_begin (opts : option bool) : M unit :=
  if showLoading opts then setIsLoading true else setRefreshing true.

Definition loadBookings_resume (opts : option bool) : M unit :=
  try_catch_finally
    (stored <- AsyncStorage_getItem STORAGE_KEY ;;
     match stored with
     | None | Some [] => setBookings []
     | Some blob =>
         match JSON_parse blob with
         | ParsedBookings parsed => setBookings parsed
         | ParsedOther v => setBookings_untyped v
         | ParseThrows => throw SyntaxError
         end
     end)
    (fun error =>
       console_error (lit "Failed to load bookings") error ;;
       Alert_alert (lit "Error") (lit "Could not load bookings. Please try again."))
    (if showLoading opts then setIsLoading false else setRefreshing false).

(** [persistBookings(items)] up to [await AsyncStorage.setItem], and from the
    answer on. *)
Definition persistBookings_begin : M unit := setIsSyncing true.

Definition persistBookings_resume (items : list Booking) : M unit :=
  try_catch_finally
    (AsyncStorage_setItem STORAGE_KEY (JSON_stringify items))
    (fun error =>
       console_error (lit "Failed to save bookings") error ;;
       Alert_alert (lit "Error") (lit "Could not save bookings. Please try again."))
    (setIsSyncing false).

(** [handleSubmit()] up to the [await] inside [persistBookings]; the result
    is the collection being saved, [None] when validation failed and the
    handler returned. *)
Definition handleSubmit_begin : M (option (list Booking)) :=
  u <- get_ui ;;
  let validation :=
    safeParse (mkFormInput (UI.name u) (UI.selectedDate u) (Some (UI.service u))) in
  match validation with
  | Failure errs => setErrors (fieldErrors_of errs) ;; ret None
  | Success data =>
      t <- Date_now ;;
      let updatedBookings := newBooking t data :: UI.bookings u in
      setBookings updatedBookings ;;
      persistBookings_begin ;;
      ret (Some updatedBookings)
  end.

Definition handleSubmit_resume (items : list Booking) : M unit :=
  persistBookings_resume items ;;
  setName [] ;;
  setSelectedDate None ;;
  setService (lit "Haircut") ;;
  setErrors no_errors.

(** [handleDelete(id)] up to the [await] inside [persistBookings]. *)
Definition handleDelete_begin (id0 : jsstring) : M (list Booking) :=
  u <- get_ui ;;
  let filtered := filter (fun booking => negb (str_eqb (id booking) id0)) (UI.bookings u) in
  setBookings filtered ;;
  persistBookings_begin ;;
  ret filtered.

Definition handleDelete_resume (items : list Booking) : M unit :=
  persistBookings_resume items.

(** A handler waiting for the storage. *)
Inductive Task :=
| AwaitGetItem (opts : option bool)                          (* loadBookings *)
| AwaitSetItem (items : list Booking) (from_submit : bool).  (* handleSubmit, handleDelete *)

Definition resume (t : Task) : M unit :=
  match t with
  | AwaitGetItem opts => loadBookings_resume opts
  | AwaitSetItem items true => handleSubmit_resume items
  | AwaitSetItem items false => handleDelete_resume items
  end.

(** The synchronous part of the handler of an event, and the task it leaves
    waiting, if any. *)
Definition start (e : Event) : M (option Task) :=
  match e with
  | Mount => loadBookings_begin (Some true) ;; ret (Some (AwaitGetItem (Some true)))
  | Refresh => loadBookings_begin (Some false) ;; ret (Some (AwaitGetItem (Some false)))
  | PressSubmit =>
      u <- get_ui ;;
      if UI.isSyncing u then ret None
      else
        r <- handleSubmit_begin ;;
        ret (option_map (fun items => AwaitSetItem items true) r)
  | PressDelete id0 =>
      items <- handleDelete_begin id0 ;;
      ret (Some (AwaitSetItem items false))
  | ChangeName _ | PressDateButton | DateChange _ _ | PressService _ | ChangeSearch _ =>
      dispatch e ;; ret None
  end.

(** The application: the component and the handlers waiting. *)
Record App := mkApp { sys : Sys; pending : list Task }.

Definition new_task (o : outcome (option Task)) : list Task :=
  match o with
  | Returned (Some t) => [t]
  | _ => []
  end.

(** An event is taken: its handler runs up to its [await]. *)
Definition fire (e : Event) (a : App) : App :=
  mkApp (snd (start e (sys a))) (pending a ++ new_task (fst (start e (sys a)))).

Definition remove_nth {A} (i : nat) (l : list A) : list A :=
  firstn i l ++ skipn (S i) l.

(** The storage answers the [i]-th waiting handler, which runs to its end. *)
Definition finish (i : nat) (a : App) : App :=
  match nth_error (pending a) i with
  | Some t => mkApp (snd (resume t (sys a))) (remove_nth i (pending a))
  | None => a
  end.

(** The states of the application on a device.  It starts on a first
    render over a storage that holds nothing under [STORAGE_KEY]; events
    are taken and waiting handlers answered in any order; the clock and the
    health of the storage change at will; the application can be killed and
    started again over the storage it left. *)
Inductive live : App -> Prop :=
| live_init w :
    kv_get STORAGE_KEY (kv w) = None -> live (mkApp (mkSys UI.initial w) [])
| live_fire e a : live a -> live (fire e a)
| live_finish i a : live a -> live (finish i a)
| live_env w' a :
    live a -> kv w' = kv (world (sys a)) -> live (mkApp (mkSys (ui (sys a)) w') (pending a))
| live_restart a : live a -> live (mkApp (mkSys UI.initial (world (sys a))) []).

(** The messages shown belong to fields that are still wrong, and the
    service is one of the chips. *)
Definition form_current (u : UI.State) : Prop :=
  In (UI.service u) SERVICE_OPTIONS
  /\ err_service (UI.errors u) = None
  /\ (err_name (UI.errors u) <> None -> trim (UI.name u) = [])
  /\ (err_date (UI.errors u) <> None -> UI.selectedDate u = None).

(** A spinner is on only while a handler that raised it is waiting, and
    what waits to be written is valid. *)
Definition spinners_owed (a : App) : Prop :=
  (forall items r, In (AwaitSetItem items r) (pending a) ->
                   forallb valid_booking items = true)
  /\ (UI.isSyncing (ui (sys a)) = true ->
      exists items r, In (AwaitSetItem items r) (pending a))
  /\ (UI.isLoading (ui (sys a)) = true ->
      exists opts, In (AwaitGetItem opts) (pending a) /\ showLoading opts = true)
  /\ (UI.refreshing (ui (sys a)) = true ->
      exists opts, In (AwaitGetItem opts) (pending a) /\ showLoading opts = false).

(** The form after [handleSubmit] has run on from its [await]. *)
Definition reset_form (s : Sys) : Sys :=
  mkSys (UI.set_errors no_errors
           (UI.set_service (lit "Haircut")
              (UI.set_selectedDate None (UI.set_name [] (ui s)))))
        (world s).

(** The state in which [handleSubmit] and [handleDelete] wait: the collection
    replaced, the save indicator on. *)
Definition syncing (items : list Booking) (s : Sys) : Sys :=
  mkSys (UI.set_isSyncing true (UI.set_bookings items (ui s))) (world s).

(** The events whose handler has no [await]. *)
Definition is_sync (e : Event) : bool :=
  match e with
  | Mount | Refresh | PressSubmit | PressDelete _ => false
  | _ => true
  end.

Definition same_flags (u u' : UI.State) : Prop :=
  UI.isSyncing u' = UI.isSyncing u /\ UI.isLoading u' = UI.isLoading u
  /\ UI.refreshing u' = UI.refreshing u.

(** What holds of the application in every state. *)
Definition app_ok (a : App) : Prop :=
  store_ok (sys a) /\ form_current (ui (sys a)) /\ spinners_owed a.

(** A session: the application starts, the user types a name while the
    first load is waiting, picks a date, presses Save, types again and
    presses Save again while the save is waiting, then the save is
    answered. *)
Module Ex4.

Definition started : App := fire Mount (mkApp (mkSys UI.initial Ex.world0) []).
Definition typed : App := fire (ChangeName (lit "  Alice ")) started.
Definition loaded_ : App := finish 0 typed.
Definition dated : App := fire (DateChange (lit "set") (Some 1714521600000%Z)) loaded_.
Definition saving : App := fire PressSubmit dated.
Definition typing_on : App := fire (ChangeName (lit "Bob")) saving.
Definition pressed_again : App := fire PressSubmit typing_on.
Definition answered : App := finish 0 pressed_again.

End Ex4.

(** * Properties *)

(** ** Strings *)

Lemma cu_eqb_eq a b : cu_eqb a b = true <-> a = b.
Proof. apply N.eqb_eq. Qed.

Lemma str_eqb_eq a : forall b, str_eqb a b = true <-> a = b.
Proof.
  induction a as [|x a IH]; intros [|y b]; simpl; split; intro H;
    try discriminate; try reflexivity.
  - apply andb_true_iff in H as [H1 H2].
    apply cu_eqb_eq in H1. apply IH in H2. now subst.
  - injection H as -> ->. apply andb_true_iff. split.
    + now apply cu_eqb_eq.
    + now apply IH.
Qed.

Lemma str_eqb_refl a : str_eqb a a = true.
Proof. now apply str_eqb_eq. Qed.

Lemma str_eqb_neq a b : str_eqb a b = false <-> a <> b.
Proof.
  split.
  - intros H E. apply str_eqb_eq in E. congruence.
  - intros H. destruct (str_eqb a b) eqn:E; [|reflexivity].
    apply str_eqb_eq in E. contradiction.
Qed.

(** *** trim *)

Lemma trimStart_nil_iff s : trimStart s = [] <-> blank s.
Proof.
  induction s as [|c r IH]; simpl.
  - split; [constructor | reflexivity].
  - destruct (isWhiteSpace c) eqn:E.
    + rewrite IH. split; intro H; [now constructor | now inversion H].
    + split; [discriminate|]. intro H. inversion H. congruence.
Qed.

Lemma trimStart_head s :
  trimStart s = [] \/ exists c r, trimStart s = c :: r /\ isWhiteSpace c = false.
Proof.
  induction s as [|c r IH]; simpl; [now left|].
  destruct (isWhiteSpace c) eqn:E; [exact IH|].
  right. now exists c, r.
Qed.

Lemma trimStart_app_nonws l c :
  isWhiteSpace c = false -> trimStart (l ++ [c]) = trimStart l ++ [c].
Proof.
  intros Hc. induction l as [|x l IH]; simpl.
  - now rewrite Hc.
  - destruct (isWhiteSpace x); [exact IH | reflexivity].
Qed.

Lemma trimStart_idem s : trimStart (trimStart s) = trimStart s.
Proof.
  destruct (trimStart_head s) as [->|(c & r & -> & Hc)]; simpl; [reflexivity|].
  now rewrite Hc.
Qed.

Lemma trimEnd_cons_nonws c r :
  isWhiteSpace c = false -> trimEnd (c :: r) = c :: trimEnd r.
Proof.
  intros Hc. unfold trimEnd. simpl.
  rewrite trimStart_app_nonws by exact Hc.
  now rewrite rev_app_distr.
Qed.

Lemma trimEnd_idem s : trimEnd (trimEnd s) = trimEnd s.
Proof. unfold trimEnd. now rewrite rev_involutive, trimStart_idem. Qed.

Lemma blank_rev s : blank (rev s) <-> blank s.
Proof.
  unfold blank. rewrite !Forall_forall. split; intros H c Hc; apply H.
  - now apply in_rev in Hc.
  - now apply in_rev.
Qed.

Lemma trimEnd_nil_iff s : trimEnd s = [] <-> blank s.
Proof.
  unfold trimEnd. rewrite <- blank_rev, <- trimStart_nil_iff.
  split; intro H.
  - apply (f_equal (@rev _)) in H. now rewrite rev_involutive in H.
  - now rewrite H.
Qed.

Lemma trim_nil_iff s : trim s = [] <-> blank s.
Proof.
  unfold trim. rewrite trimEnd_nil_iff.
  destruct (trimStart_head s) as [E|(c & r & E & Hc)].
  - rewrite E. apply trimStart_nil_iff in E. split; [now intros _ | constructor].
  - rewrite E. split; intro H.
    + inversion H. congruence.
    + apply trimStart_nil_iff in H. congruence.
Qed.

Lemma trim_idem s : trim (trim s) = trim s.
Proof.
  unfold trim at 2 3.
  destruct (trimStart_head s) as [->|(c & r & -> & Hc)]; [reflexivity|].
  rewrite trimEnd_cons_nonws by exact Hc.
  unfold trim. simpl. rewrite Hc.
  rewrite trimEnd_cons_nonws by exact Hc.
  now rewrite trimEnd_idem.
Qed.

Lemma is_empty_true s : is_empty s = true <-> s = [].
Proof. destruct s; simpl; split; congruence. Qed.

(** *** includes *)

Lemma startsWith_spec s : forall q,
  startsWith s q = true <-> exists post, s = q ++ post.
Proof.
  induction s as [|y s IH]; intros [|x q]; simpl.
  - split; [now exists [] | reflexivity].
  - split; [discriminate | now intros [post H]].
  - split; [now exists (y :: s) | reflexivity].
  - rewrite andb_true_iff, IH. unfold cu_eqb. rewrite N.eqb_eq. split.
    + intros [-> [post ->]]. now exists post.
    + intros [post H]. injection H as -> ->. split; [reflexivity | now exists post].
Qed.

Lemma includes_spec s q :
  includes s q = true <-> exists pre post, s = pre ++ q ++ post.
Proof.
  induction s as [|y s IH].
  - cbn [includes]. rewrite orb_false_r, startsWith_spec. split.
    + intros [post H]. now exists [], post.
    + intros (pre & post & H). destruct pre; simpl in H.
      * now exists post.
      * discriminate.
  - cbn [includes]. rewrite orb_true_iff, startsWith_spec, IH. split.
    + intros [[post H]|(pre & post & H)].
      * now exists [], post.
      * exists (y :: pre), post. now rewrite H.
    + intros (pre & post & H). destruct pre as [|p pre]; simpl in H.
      * left. now exists post.
      * right. injection H as -> ->. now exists pre, post.
Qed.

(** ** JSON: what [JSON.stringify] writes, [JSON.parse] reads back *)

Section RoundTrip.
Local Open Scope N_scope.

Lemma hex_val_digit n : n < 16 -> hex_val (hex_digit n) = Some n.
Proof.
  intros H.
  assert (E : In n [0; 1; 2; 3; 4; 5; 6; 7; 8; 9; 10; 11; 12; 13; 14; 15])
    by (simpl; lia).
  simpl in E.
  repeat (destruct E as [<-|E]; [reflexivity|]). contradiction.
Qed.

Lemma hex4_digits c :
  c < 65536 ->
  hex4 (hex_digit ((c / 4096) mod 16)) (hex_digit ((c / 256) mod 16))
       (hex_digit ((c / 16) mod 16)) (hex_digit (c mod 16)) = Some c.
Proof.
  intros H. unfold hex4.
  rewrite !hex_val_digit by (apply N.mod_lt; discriminate).
  f_equal. zify. Z.to_euclidean_division_equations. lia.
Qed.

Lemma parse_chars_raw c tl :
  c <> 34 -> c <> 92 -> 32 <= c ->
  parse_chars (c :: tl) = cons_fst c (parse_chars tl).
Proof.
  intros H1 H2 H3. cbn [parse_chars].
  apply N.eqb_neq in H1, H2. rewrite H1, H2.
  destruct (N.ltb_spec c 32); [lia | reflexivity].
Qed.

Lemma parse_chars_unicode_escape c tl :
  c < 65536 ->
  parse_chars (unicode_escape c ++ tl) = cons_fst c (parse_chars tl).
Proof.
  intros H. unfold unicode_escape. cbn [app parse_chars].
  change (92 =? 34) with false. change (92 =? 92) with true.
  change (117 =? 117) with true. cbv iota.
  now rewrite hex4_digits.
Qed.

Lemma parse_chars_quote_one c tl :
  is_high c = false ->
  parse_chars (quote_one c ++ tl) = cons_fst c (parse_chars tl).
Proof.
  intros Hh. unfold quote_one.
  destruct (N.eqb_spec c 8) as [->|]; [reflexivity|].
  destruct (N.eqb_spec c 9) as [->|]; [reflexivity|].
  destruct (N.eqb_spec c 10) as [->|]; [reflexivity|].
  destruct (N.eqb_spec c 12) as [->|]; [reflexivity|].
  destruct (N.eqb_spec c 13) as [->|]; [reflexivity|].
  destruct (N.eqb_spec c 34) as [->|]; [reflexivity|].
  destruct (N.eqb_spec c 92) as [->|]; [reflexivity|].
  rewrite Hh, orb_false_r.
  destruct (N.ltb_spec c 32) as [Hlt|Hge]; cbn [orb].
  - apply parse_chars_unicode_escape. lia.
  - destruct (is_low c) eqn:Hl.
    + apply parse_chars_unicode_escape.
      unfold is_low in Hl. apply andb_true_iff in Hl as [_ Hl].
      apply N.leb_le in Hl. lia.
    + now apply parse_chars_raw.
Qed.

Lemma is_high_raw c : is_high c = true -> c <> 34 /\ c <> 92 /\ 32 <= c /\ c < 65536.
Proof.
  unfold is_high. intros H. apply andb_true_iff in H as [H1 H2].
  apply N.leb_le in H1, H2. lia.
Qed.

Lemma is_low_raw c : is_low c = true -> c <> 34 /\ c <> 92 /\ 32 <= c.
Proof.
  unfold is_low. intros H. apply andb_true_iff in H as [H1 H2].
  apply N.leb_le in H1, H2. lia.
Qed.

Lemma parse_chars_quote_body_bounded n : forall s rest,
  (length s <= n)%nat ->
  parse_chars (quote_body s ++ 34 :: rest) = Some (s, rest).
Proof.
  induction n as [|n IH]; intros [|c r] rest Hlen; simpl in Hlen;
    try reflexivity; try lia.
  cbn [quote_body].
  destruct (is_high c) eqn:Hh.
  - destruct (is_high_raw c Hh) as (H1 & H2 & H3 & H4).
    destruct r as [|l r'].
    + rewrite parse_chars_unicode_escape by exact H4. reflexivity.
    + destruct (is_low l) eqn:Hl.
      * destruct (is_low_raw l Hl) as (L1 & L2 & L3).
        cbn [app]. rewrite parse_chars_raw by assumption.
        rewrite parse_chars_raw by assumption.
        rewrite IH by (simpl in Hlen; lia). reflexivity.
      * rewrite <- app_assoc, parse_chars_unicode_escape by exact H4.
        rewrite IH by lia. reflexivity.
  - rewrite <- app_assoc, parse_chars_quote_one by exact Hh.
    rewrite IH by lia. reflexivity.
Qed.

Lemma parse_chars_quote_body s rest :
  parse_chars (quote_body s ++ 34 :: rest) = Some (s, rest).
Proof. now apply (parse_chars_quote_body_bounded (length s)). Qed.


Lemma parse_value_quote f s rest :
  parse_value (S f) (quote s ++ rest) = Some (JStr s, rest).
Proof.
  unfold quote. cbn [app parse_value]. unfold value_step. cbn [skip_ws].
  change (is_json_ws 34) with false. cbv iota.
  change (34 =? 34)%N with true. cbv iota.
  rewrite <- app_assoc. cbn [app]. now rewrite parse_chars_quote_body.
Qed.

Lemma parse_members_strings : forall ms f rest,
  ms <> [] -> (length ms < f)%nat ->
  parse_members f
    (join_comma (List.map member_text (List.map str_member ms)) ++ 125%N :: rest)
  = Some (List.map str_member ms, rest).
Proof.
  induction ms as [|[k v] ms IH]; intros f rest Hne Hf; [contradiction|].
  destruct f as [|f]; [lia|]. simpl in Hf.
  destruct f as [|f']; [lia|].
  assert (Hhead : forall tl,
    parse_members (S (S f')) (member_text (str_member (k, v)) ++ tl)
    = match skip_ws tl with
      | c :: r' =>
          if (c =? 44)%N then cons_fst (k, JStr v) (parse_members (S f') r')
          else if (c =? 125)%N then Some ([(k, JStr v)], r')
          else None
      | [] => None
      end).
  { intros tl. unfold member_text, str_member. cbn [fst snd stringify].
    unfold quote at 1. cbn [app parse_members]. unfold members_step.
    cbn [skip_ws]. change (is_json_ws 34) with false. cbv iota.
    change (34 =? 34)%N with true. cbv iota.
    rewrite <- !app_assoc. cbn [app].
    rewrite parse_chars_quote_body. cbn [skip_ws].
    change (is_json_ws 58) with false. cbv iota.
    change (58 =? 58)%N with true. cbv iota.
    now rewrite parse_value_quote. }
  destruct ms as [|m ms'].
  - cbn [List.map join_comma]. rewrite Hhead. reflexivity.
  - change (join_comma (List.map member_text (List.map str_member ((k, v) :: m :: ms'))))
      with (member_text (str_member (k, v))
              ++ 44%N :: join_comma (List.map member_text (List.map str_member (m :: ms')))).
    rewrite <- app_assoc. rewrite Hhead. cbn [app skip_ws].
    change (is_json_ws 44) with false. cbv iota.
    change (44 =? 44)%N with true. cbv iota.
    rewrite IH by (simpl in *; (discriminate || lia)). reflexivity.
Qed.

Lemma parse_value_object f r :
  parse_value (S f) (123 :: r) =
  match skip_ws r with
  | c' :: r' =>
      if c' =? 125 then Some (JObj [], r')
      else match parse_members f r with
           | Some (l, r'') => Some (JObj l, r'')
           | None => None
           end
  | [] => None
  end.
Proof. reflexivity. Qed.

Lemma parse_value_array f r :
  parse_value (S f) (91 :: r) =
  match skip_ws r with
  | c' :: r' =>
      if c' =? 93 then Some (JArr [], r')
      else match parse_elements f r with
           | Some (l, r'') => Some (JArr l, r'')
           | None => None
           end
  | [] => None
  end.
Proof. reflexivity. Qed.

Lemma parse_elements_S f s :
  parse_elements (S f) s =
  match parse_value f s with
  | Some (v, r) =>
      match skip_ws r with
      | c :: r' =>
          if c =? 44 then cons_fst v (parse_elements f r')
          else if c =? 93 then Some ([v], r')
          else None
      | [] => None
      end
  | None => None
  end.
Proof. reflexivity. Qed.

Lemma parse_value_booking f b rest :
  (5 < f)%nat ->
  parse_value f (stringify (json_of_booking b) ++ rest) = Some (json_of_booking b, rest).
Proof.
  intros Hf. destruct f as [|f]; [lia|].
  change (json_of_booking b) with (JObj (List.map str_member (fields b))).
  cbn [stringify].
  change (List.map (fun m => quote (fst m) ++ 58 :: stringify (snd m)))
    with (List.map member_text).
  cbn [app]. rewrite <- app_assoc. cbn [app].
  rewrite parse_value_object.
  rewrite parse_members_strings by (simpl; (discriminate || lia)).
  reflexivity.
Qed.

Lemma parse_elements_bookings : forall bs f rest,
  bs <> [] -> (length bs + 6 <= f)%nat ->
  parse_elements f
    (join_comma (List.map stringify (List.map json_of_booking bs)) ++ 93 :: rest)
  = Some (List.map json_of_booking bs, rest).
Proof.
  induction bs as [|b bs IH]; intros f rest Hne Hf; [contradiction|].
  destruct f as [|f]; [simpl in Hf; lia|]. simpl in Hf.
  rewrite parse_elements_S.
  destruct bs as [|b' bs'].
  - cbn [List.map join_comma].
    rewrite parse_value_booking by lia. reflexivity.
  - change (join_comma (List.map stringify (List.map json_of_booking (b :: b' :: bs'))))
      with (stringify (json_of_booking b)
              ++ 44 :: join_comma (List.map stringify (List.map json_of_booking (b' :: bs')))).
    rewrite <- app_assoc. rewrite parse_value_booking by lia.
    cbn [app skip_ws]. change (is_json_ws 44) with false. cbv iota.
    change (44 =? 44) with true. cbv iota.
    rewrite IH by (simpl in *; (discriminate || lia)). reflexivity.
Qed.

Lemma length_join_comma (l : list jsstring) :
  (forall x, In x l -> (2 <= length x)%nat) ->
  (2 * length l <= length (join_comma l))%nat.
Proof.
  induction l as [|x l IH]; intros H; [simpl; lia|].
  assert (Hx : (2 <= length x)%nat) by (apply H; now left).
  assert (Hl : (2 * length l <= length (join_comma l))%nat)
    by (apply IH; intros y Hy; apply H; now right).
  destruct l as [|y l']; [simpl; lia|].
  change (join_comma (x :: y :: l')) with (x ++ 44 :: join_comma (y :: l')).
  rewrite length_app. cbn [length] in *. lia.
Qed.

Lemma booking_of_json_of_booking b : booking_of_json (json_of_booking b) = Some b.
Proof. destruct b. reflexivity. Qed.

Lemma traverse_map {A B} (f : A -> option B) (g : B -> A) :
  (forall b, f (g b) = Some b) ->
  forall l, traverse f (List.map g l) = Some l.
Proof.
  intros H. induction l as [|b l IH]; simpl; [reflexivity|].
  now rewrite H, IH.
Qed.

Lemma parse_stringify_bookings bs :
  parse (JSON_stringify bs) = Some (JArr (List.map json_of_booking bs)).
Proof.
  destruct bs as [|b bs']; [reflexivity|].
  unfold parse, JSON_stringify. cbn [stringify].
  set (bs := b :: bs').
  set (txt := join_comma (List.map stringify (List.map json_of_booking bs))).
  assert (Hlen : (2 * length bs <= length txt)%nat).
  { unfold txt. etransitivity; [|apply length_join_comma].
    - now rewrite !length_map.
    - intros x Hx. apply in_map_iff in Hx as (j & <- & Hj).
      apply in_map_iff in Hj as (b0 & <- & _). simpl. lia. }
  assert (Hfuel : exists f, fuel_for (91 :: txt ++ [93]) = S f
                            /\ (length bs + 6 <= f)%nat).
  { unfold fuel_for. cbn [length]. rewrite length_app. cbn [length].
    exists (2 * S (length txt + 1) + 1)%nat.
    assert (1 <= length bs)%nat by (unfold bs; simpl; lia). split; lia. }
  destruct Hfuel as (f & -> & Hf).
  rewrite parse_value_array.
  assert (Hskip : exists tl, skip_ws (txt ++ [93]) = 123 :: tl).
  { unfold txt, bs. destruct bs'; cbn; eauto. }
  destruct Hskip as [tl ->].
  change (123 =? 93) with false. cbv iota.
  unfold txt. rewrite parse_elements_bookings by (discriminate || exact Hf).
  reflexivity.
Qed.

Theorem JSON_round_trip bs : JSON_parse (JSON_stringify bs) = ParsedBookings bs.
Proof.
  unfold JSON_parse. rewrite parse_stringify_bookings.
  unfold bookings_of_json.
  now rewrite (traverse_map booking_of_json json_of_booking booking_of_json_of_booking).
Qed.

End RoundTrip.

(** ** JSON: the fuel of [parse] is enough *)

Section Fuel.
Local Open Scope N_scope.

Lemma skip_ws_length s : (length (skip_ws s) <= length s)%nat.
Proof.
  induction s as [|c r IH]; cbn [skip_ws]; [lia|].
  destruct (is_json_ws c); cbn [length] in *; lia.
Qed.

Lemma cons_fst_Some {A B} (a : A) (o : option (list A * B)) l r :
  cons_fst a o = Some (l, r) -> exists l', o = Some (l', r) /\ l = a :: l'.
Proof.
  destruct o as [[l' r']|]; cbn [cons_fst]; intros H; [|discriminate].
  injection H as <- <-. now exists l'.
Qed.

Lemma parse_chars_length_bounded n : forall s x r,
  (length s <= n)%nat -> parse_chars s = Some (x, r) -> (length r < length s)%nat.
Proof.
  induction n as [|n IH]; intros [|c s] x r Hn; cbn [length] in Hn;
    try lia; try discriminate.
  cbn [parse_chars].
  destruct (c =? 34).
  { intros H. injection H as <- <-. cbn [length]. lia. }
  destruct (c =? 92).
  - destruct s as [|e s']; [discriminate|].
    destruct (e =? 117).
    + destruct s' as [|h1 [|h2 [|h3 [|h4 s'']]]]; try discriminate.
      destruct (hex4 h1 h2 h3 h4); [|discriminate].
      intros H. apply cons_fst_Some in H as (l' & H & _).
      apply IH in H; cbn [length] in *; lia.
    + destruct (simple_escape e); [|discriminate].
      intros H. apply cons_fst_Some in H as (l' & H & _).
      apply IH in H; cbn [length] in *; lia.
  - destruct (c <? 32); [discriminate|].
    intros H. apply cons_fst_Some in H as (l' & H & _).
    apply IH in H; cbn [length] in *; lia.
Qed.

Lemma parse_chars_length s x r :
  parse_chars s = Some (x, r) -> (length r < length s)%nat.
Proof. now apply (parse_chars_length_bounded (length s)). Qed.

Lemma span_digits_length s : (length (snd (span_digits s)) <= length s)%nat.
Proof.
  induction s as [|c r IH]; cbn [span_digits]; [cbn; lia|].
  destruct (is_digit c); [|cbn; lia].
  destruct (span_digits r) as [d r']. cbn [snd length] in *. lia.
Qed.

Lemma digits1_length s d r : digits1 s = Some (d, r) -> (length r <= length s)%nat.
Proof.
  unfold digits1. pose proof (span_digits_length s) as H.
  destruct (span_digits s) as [[|x d'] r']; [discriminate|].
  intros E. injection E as <- <-. exact H.
Qed.

Lemma number_int_length s i r :
  number_int s = Some (i, r) -> (length r < length s)%nat.
Proof.
  destruct s as [|c s']; cbn [number_int]; [discriminate|].
  destruct (c =? 48).
  { intros H. injection H as <- <-. cbn [length]. lia. }
  destruct (is_digit c); [|discriminate].
  pose proof (span_digits_length s') as H.
  destruct (span_digits s') as [d r']. intros E. injection E as <- <-.
  cbn [snd length] in *. lia.
Qed.

Lemma number_frac_length s x r :
  number_frac s = Some (x, r) -> (length r <= length s)%nat.
Proof.
  destruct s as [|c s']; cbn [number_frac].
  { intros H. injection H as <- <-. lia. }
  destruct (c =? 46).
  - intros H. apply cons_fst_Some in H as (l' & H & _).
    apply digits1_length in H. cbn [length]. lia.
  - intros H. injection H as <- <-. lia.
Qed.

Lemma number_exp_length s x r :
  number_exp s = Some (x, r) -> (length r <= length s)%nat.
Proof.
  destruct s as [|c s']; cbn [number_exp].
  { intros H. injection H as <- <-. lia. }
  destruct ((c =? 101) || (c =? 69)).
  - destruct s' as [|g s'']; [discriminate|].
    destruct ((g =? 43) || (g =? 45)); intros H;
      apply cons_fst_Some in H as (l' & H & _).
    + apply cons_fst_Some in H as (l'' & H & _).
      apply digits1_length in H. cbn [length]. lia.
    + apply digits1_length in H. cbn [length] in *. lia.
  - intros H. injection H as <- <-. lia.
Qed.

Lemma parse_number_length s l r :
  parse_number s = Some (l, r) -> (length r < length s)%nat.
Proof.
  unfold parse_number.
  assert (Hsign : forall sign s0,
            (length s0 <= length s)%nat ->
            match number_int s0 with
            | Some (i, s1) =>
                match number_frac s1 with
                | Some (f, s2) =>
                    match number_exp s2 with
                    | Some (e, s3) => Some (sign ++ i ++ f ++ e, s3)
                    | None => None
                    end
                | None => None
                end
            | None => None
            end = Some (l, r) -> (length r < length s)%nat).
  { intros sign s0 Hle.
    destruct (number_int s0) as [[i s1]|] eqn:Ei; [|discriminate].
    destruct (number_frac s1) as [[f s2]|] eqn:Ef; [|discriminate].
    destruct (number_exp s2) as [[e s3]|] eqn:Ee; [|discriminate].
    intros H. injection H as _ <-.
    apply number_int_length in Ei. apply number_frac_length in Ef.
    apply number_exp_length in Ee. lia. }
  destruct s as [|c s']; [apply Hsign; lia|].
  destruct (c =? 45); apply Hsign; cbn [length]; lia.
Qed.

Lemma expect_length w : forall s r, expect w s = Some r -> (length r <= length s)%nat.
Proof.
  induction w as [|x w IH]; intros [|y s] r; cbn [expect]; try discriminate.
  - intros H. injection H as <-. lia.
  - intros H. injection H as <-. lia.
  - destruct (cu_eqb x y); [|discriminate]. intros H. apply IH in H.
    cbn [length]. lia.
Qed.

Lemma value_enough_S f :
  elements_enough f -> members_enough f -> value_enough (S f).
Proof.
  intros He Hm s v r. cbn [parse_value]. unfold value_step at 1.
  pose proof (skip_ws_length s) as Hws.
  destruct (skip_ws s) as [|c r0] eqn:Es; [discriminate|]. cbn [length] in Hws.
  assert (Hre : forall f', parse_value (S f') s
                           = value_step (parse_elements f') (parse_members f') s)
    by reflexivity.
  destruct (c =? 34) eqn:E34.
  { destruct (parse_chars r0) as [[str r']|] eqn:Ec; [|discriminate].
    intros H. injection H as <- <-. apply parse_chars_length in Ec as Hl.
    split; [lia|]. intros [|f'] Hf; [lia|].
    rewrite Hre. unfold value_step. now rewrite Es, E34, Ec. }
  destruct (c =? 91) eqn:E91.
  { pose proof (skip_ws_length r0) as Hws2.
    destruct (skip_ws r0) as [|c' r1] eqn:Es2; [discriminate|]. cbn [length] in Hws2.
    destruct (c' =? 93) eqn:E93.
    - intros H. injection H as <- <-. split; [lia|].
      intros [|f'] Hf; [lia|].
      rewrite Hre. unfold value_step. now rewrite Es, E34, E91, Es2, E93.
    - destruct (parse_elements f r0) as [[l r'']|] eqn:Ee; [|discriminate].
      intros H. injection H as <- <-.
      destruct (He _ _ _ Ee) as [Hl Hup]. split; [lia|].
      intros [|f'] Hf; [lia|].
      rewrite Hre. unfold value_step. rewrite Es, E34, E91, Es2, E93.
      now rewrite (Hup f') by lia. }
  destruct (c =? 123) eqn:E123.
  { pose proof (skip_ws_length r0) as Hws2.
    destruct (skip_ws r0) as [|c' r1] eqn:Es2; [discriminate|]. cbn [length] in Hws2.
    destruct (c' =? 125) eqn:E125.
    - intros H. injection H as <- <-. split; [lia|].
      intros [|f'] Hf; [lia|].
      rewrite Hre. unfold value_step. now rewrite Es, E34, E91, E123, Es2, E125.
    - destruct (parse_members f r0) as [[l r'']|] eqn:Ee; [|discriminate].
      intros H. injection H as <- <-.
      destruct (Hm _ _ _ Ee) as [Hl Hup]. split; [lia|].
      intros [|f'] Hf; [lia|].
      rewrite Hre. unfold value_step. rewrite Es, E34, E91, E123, Es2, E125.
      now rewrite (Hup f') by lia. }
  destruct (c =? 116) eqn:E116.
  { destruct (expect (lit "rue") r0) as [r'|] eqn:Ex; [|discriminate].
    intros H. injection H as <- <-. apply expect_length in Ex as Hl.
    split; [lia|]. intros [|f'] Hf; [lia|].
    rewrite Hre. unfold value_step. now rewrite Es, E34, E91, E123, E116, Ex. }
  destruct (c =? 102) eqn:E102.
  { destruct (expect (lit "alse") r0) as [r'|] eqn:Ex; [|discriminate].
    intros H. injection H as <- <-. apply expect_length in Ex as Hl.
    split; [lia|]. intros [|f'] Hf; [lia|].
    rewrite Hre. unfold value_step.
    now rewrite Es, E34, E91, E123, E116, E102, Ex. }
  destruct (c =? 110) eqn:E110.
  { destruct (expect (lit "ull") r0) as [r'|] eqn:Ex; [|discriminate].
    intros H. injection H as <- <-. apply expect_length in Ex as Hl.
    split; [lia|]. intros [|f'] Hf; [lia|].
    rewrite Hre. unfold value_step.
    now rewrite Es, E34, E91, E123, E116, E102, E110, Ex. }
  destruct (parse_number (c :: r0)) as [[l r']|] eqn:En; [|discriminate].
  intros H. injection H as <- <-. apply parse_number_length in En as Hl.
  cbn [length] in Hl. split; [lia|]. intros [|f'] Hf; [lia|].
  rewrite Hre. unfold value_step.
  now rewrite Es, E34, E91, E123, E116, E102, E110, En.
Qed.

Lemma elements_enough_S f :
  value_enough f -> elements_enough f -> elements_enough (S f).
Proof.
  intros Hv He s l r. cbn [parse_elements]. unfold elements_step at 1.
  destruct (parse_value f s) as [[v r1]|] eqn:Ev; [|discriminate].
  destruct (Hv _ _ _ Ev) as [Hl1 Hup1].
  pose proof (skip_ws_length r1) as Hws.
  destruct (skip_ws r1) as [|c r2] eqn:Es; [discriminate|]. cbn [length] in Hws.
  assert (Hre : forall f', parse_elements (S f') s
                           = elements_step (parse_value f') (parse_elements f') s)
    by reflexivity.
  destruct (c =? 44) eqn:E44.
  - intros H. apply cons_fst_Some in H as (l' & H & ->).
    destruct (He _ _ _ H) as [Hl2 Hup2]. split; [lia|].
    intros [|f'] Hf; [lia|].
    rewrite Hre. unfold elements_step.
    rewrite (Hup1 f') by lia. rewrite Es, E44.
    now rewrite (Hup2 f') by lia.
  - destruct (c =? 93) eqn:E93; [|discriminate].
    intros H. injection H as <- <-. split; [lia|].
    intros [|f'] Hf; [lia|].
    rewrite Hre. unfold elements_step.
    rewrite (Hup1 f') by lia. now rewrite Es, E44, E93.
Qed.

Lemma members_enough_S f :
  value_enough f -> members_enough f -> members_enough (S f).
Proof.
  intros Hv Hm s l r. cbn [parse_members]. unfold members_step at 1.
  pose proof (skip_ws_length s) as Hws0.
  destruct (skip_ws s) as [|q r0] eqn:Es0; [discriminate|]. cbn [length] in Hws0.
  destruct (q =? 34) eqn:E34; [|discriminate].
  destruct (parse_chars r0) as [[k r1]|] eqn:Ec; [|discriminate].
  apply parse_chars_length in Ec as Hlc.
  pose proof (skip_ws_length r1) as Hws1.
  destruct (skip_ws r1) as [|c1 r2] eqn:Es1; [discriminate|]. cbn [length] in Hws1.
  destruct (c1 =? 58) eqn:E58; [|discriminate].
  destruct (parse_value f r2) as [[v r3]|] eqn:Ev; [|discriminate].
  destruct (Hv _ _ _ Ev) as [Hl3 Hup3].
  pose proof (skip_ws_length r3) as Hws3.
  destruct (skip_ws r3) as [|c r4] eqn:Es3; [discriminate|]. cbn [length] in Hws3.
  assert (Hre : forall f', parse_members (S f') s
                           = members_step (parse_value f') (parse_members f') s)
    by reflexivity.
  destruct (c =? 44) eqn:E44.
  - intros H. apply cons_fst_Some in H as (l' & H & ->).
    destruct (Hm _ _ _ H) as [Hl4 Hup4]. split; [lia|].
    intros [|f'] Hf; [lia|].
    rewrite Hre. unfold members_step. rewrite Es0, E34, Ec, Es1, E58.
    rewrite (Hup3 f') by lia. rewrite Es3, E44.
    now rewrite (Hup4 f') by lia.
  - destruct (c =? 125) eqn:E125; [|discriminate].
    intros H. injection H as <- <-. split; [lia|].
    intros [|f'] Hf; [lia|].
    rewrite Hre. unfold members_step. rewrite Es0, E34, Ec, Es1, E58.
    rewrite (Hup3 f') by lia. now rewrite Es3, E44, E125.
Qed.

Lemma parsers_enough f : value_enough f /\ elements_enough f /\ members_enough f.
Proof.
  induction f as [|f (Hv & He & Hm)].
  - repeat split; intros; discriminate.
  - split; [now apply value_enough_S|].
    split; [now apply elements_enough_S | now apply members_enough_S].
Qed.

(** No text needs more fuel than [parse] gives it: a value that some fuel
    finds is found by [fuel_for]. *)
Theorem fuel_for_enough f s v r :
  parse_value f s = Some (v, r) -> parse_value (fuel_for s) s = Some (v, r).
Proof.
  intros H. destruct (parsers_enough f) as [Hv _].
  destruct (Hv _ _ _ H) as [_ Hup]. apply Hup. unfold fuel_for. lia.
Qed.

(** [parse] fails only on a text that no amount of fuel parses. *)
Corollary parse_None_no_fuel s :
  parse s = None ->
  forall f v r, parse_value f s = Some (v, r) -> skip_ws r <> [].
Proof.
  unfold parse. intros H f v r Hp E.
  rewrite (fuel_for_enough f s v r Hp), E in H. discriminate.
Qed.

End Fuel.

(** ** The validator *)

Lemma is_service_In s : is_service s = true <-> In s SERVICE_OPTIONS.
Proof.
  unfold is_service. rewrite existsb_exists. split.
  - intros (x & Hx & E). apply str_eqb_eq in E. now subst.
  - intros H. exists s. split; [exact H | apply str_eqb_refl].
Qed.

Lemma safeParse_valid n d sv :
  trim n <> [] -> In sv SERVICE_OPTIONS ->
  safeParse (mkFormInput n (Some d) (Some sv)) = Success (mkFormData (trim n) d sv).
Proof.
  intros Hn Hs. unfold safeParse, schema_name, schema_service. cbn [in_name in_date in_service schema_date].
  destruct (is_empty (trim n)) eqn:E; [apply is_empty_true in E; contradiction|].
  apply is_service_In in Hs. now rewrite Hs.
Qed.

Lemma safeParse_blank_name n d sv :
  blank n ->
  exists errs, safeParse (mkFormInput n d sv) = Failure errs
               /\ err_name (fieldErrors_of errs) = Some (lit "Name is required").
Proof.
  intros Hn. apply trim_nil_iff in Hn.
  unfold safeParse, schema_name. cbn [in_name in_date in_service].
  rewrite Hn. cbn [is_empty].
  destruct d as [d|]; destruct sv as [sv|]; cbn [schema_date schema_service];
    try destruct (is_service sv); eexists; split; reflexivity.
Qed.

Lemma safeParse_cases i :
  (all_issues i = [] /\ exists data, safeParse i = Success data)
  \/ (all_issues i <> [] /\ safeParse i = Failure (all_issues i)).
Proof.
  unfold all_issues, safeParse.
  destruct (schema_name (in_name i)) as [n|en] eqn:En;
    destruct (schema_date (in_date i)) as [d|ed] eqn:Ed;
    destruct (schema_service (in_service i)) as [sv|es] eqn:Es;
    cbn [issues_of app];
    try (left; split; [reflexivity | eexists; reflexivity]);
    right; (split; [|reflexivity]).
  all: unfold schema_name, schema_date, schema_service in *.
  all: repeat match goal with
         | H : (if ?b then _ else _) = _ |- _ => destruct b
         | H : match ?x with _ => _ end = _ |- _ => destruct x
         end;
       try discriminate;
       repeat match goal with H : inr _ = inr _ |- _ => injection H as <- end;
       discriminate.
Qed.

Lemma issue_on_iff f i :
  issue_on f (safeParse i) <-> exists m, In (mkIssue f m) (all_issues i).
Proof.
  unfold issue_on.
  destruct (safeParse_cases i) as [[E [data ->]]|[_ ->]].
  - rewrite E. split.
    + intros (errs & m & H & _). discriminate.
    + intros (m & []).
  - split.
    + intros (errs & m & H & Hin). injection H as <-. now exists m.
    + intros (m & Hin). now exists (all_issues i), m.
Qed.

Lemma name_issue_iff i :
  (exists m, In (mkIssue FName m) (all_issues i)) <-> trim (in_name i) = [].
Proof.
  unfold all_issues, schema_name, schema_date, schema_service.
  rewrite <- is_empty_true.
  destruct (is_empty (trim (in_name i))); destruct (in_date i);
    destruct (in_service i) as [sv|]; try destruct (is_service sv);
    cbn [issues_of app In]; split;
    try (intros _; eexists; left; reflexivity);
    try reflexivity; try discriminate;
    intros (m & H); repeat destruct H as [H|H]; try discriminate; contradiction.
Qed.

Lemma date_issue_iff i :
  (exists m, In (mkIssue FDate m) (all_issues i)) <-> in_date i = None.
Proof.
  unfold all_issues, schema_name, schema_date, schema_service.
  destruct (is_empty (trim (in_name i))); destruct (in_date i);
    destruct (in_service i) as [sv|]; try destruct (is_service sv);
    cbn [issues_of app In]; split;
    try (intros _; eexists; tauto);
    try reflexivity; try discriminate;
    intros (m & H); repeat destruct H as [H|H]; try discriminate; contradiction.
Qed.

Lemma service_issue_iff i :
  (exists m, In (mkIssue FService m) (all_issues i)) <->
  in_service i = None \/ exists s, in_service i = Some s /\ ~ In s SERVICE_OPTIONS.
Proof.
  assert (H : (exists m, In (mkIssue FService m) (all_issues i)) <->
              match in_service i with
              | Some sv => is_service sv = false
              | None => True
              end).
  { unfold all_issues, schema_name, schema_date, schema_service.
    destruct (is_empty (trim (in_name i))); destruct (in_date i);
      destruct (in_service i) as [sv|]; try destruct (is_service sv);
      cbn [issues_of app In]; split;
      try (intros _; eexists; tauto);
      try reflexivity; try discriminate;
      intros (m & H); repeat destruct H as [H|H]; try discriminate; contradiction. }
  rewrite H. destruct (in_service i) as [sv|]; [|tauto].
  split.
  - intros E. right. exists sv. split; [reflexivity|].
    intros Hin. apply is_service_In in Hin. congruence.
  - intros [E|(s0 & E & Hn)]; [discriminate|]. injection E as <-.
    destruct (is_service sv) eqn:Es; [|reflexivity].
    apply is_service_In in Es. contradiction.
Qed.

Lemma safeParse_Success_data i data :
  safeParse i = Success data ->
  data_name data = trim (in_name i)
  /\ data_name data <> []
  /\ in_date i = Some (data_date data)
  /\ in_service i = Some (data_service data)
  /\ In (data_service data) SERVICE_OPTIONS.
Proof.
  unfold safeParse, schema_name, schema_date, schema_service.
  destruct (is_empty (trim (in_name i))) eqn:En; destruct (in_date i) as [d|];
    destruct (in_service i) as [sv|]; try destruct (is_service sv) eqn:Es;
    cbn [issues_of app]; intros H; try discriminate.
  injection H as <-. cbn [data_name data_date data_service].
  repeat split; try reflexivity.
  - intros E. rewrite E in En. discriminate.
  - now apply is_service_In.
Qed.

Lemma safeParse_fails_iff i :
  (exists errs, safeParse i = Failure errs) <->
  issue_on FName (safeParse i) \/ issue_on FDate (safeParse i)
  \/ issue_on FService (safeParse i).
Proof.
  split.
  - intros [errs H].
    destruct (safeParse_cases i) as [[_ [data E]]|[Hne _]]; [congruence|].
    assert (Hex : exists e, In e (all_issues i)).
    { destruct (all_issues i) as [|e l]; [contradiction | exists e; now left]. }
    destruct Hex as [[[] m] Hin].
    + left. apply issue_on_iff. now exists m.
    + right. left. apply issue_on_iff. now exists m.
    + right. right. apply issue_on_iff. now exists m.
  - unfold issue_on. intros [H|[H|H]]; destruct H as (errs & _ & H & _); eauto.
Qed.

(** C1: [bookingSchema.safeParse] reports an issue on the name exactly when
    the name is empty once trimmed, on the date exactly when the date is
    absent, on the service exactly when the service is absent or is not one
    of [SERVICE_OPTIONS]; it fails exactly when it reports an issue; when it
    succeeds the data carry the trimmed name, the date and the service. *)
Theorem bookingSchema_rules (i : FormInput) :
  (issue_on FName (safeParse i) <-> trim (in_name i) = [])
  /\ (issue_on FDate (safeParse i) <-> in_date i = None)
  /\ (issue_on FService (safeParse i) <->
        in_service i = None
        \/ exists s, in_service i = Some s /\ ~ In s SERVICE_OPTIONS)
  /\ ((exists errs, safeParse i = Failure errs) <->
        issue_on FName (safeParse i) \/ issue_on FDate (safeParse i)
        \/ issue_on FService (safeParse i))
  /\ (forall data, safeParse i = Success data ->
        data_name data = trim (in_name i)
        /\ data_name data <> []
        /\ in_date i = Some (data_date data)
        /\ in_service i = Some (data_service data)
        /\ In (data_service data) SERVICE_OPTIONS).
Proof.
  split; [rewrite issue_on_iff; apply name_issue_iff|].
  split; [rewrite issue_on_iff; apply date_issue_iff|].
  split; [rewrite issue_on_iff; apply service_issue_iff|].
  split; [apply safeParse_fails_iff | apply safeParse_Success_data].
Qed.

(** ** Running the handlers *)

Lemma kv_get_set k v m : kv_get k (kv_set k v m) = Some v.
Proof. unfold kv_set. cbn [kv_get]. now rewrite str_eqb_refl. Qed.

Lemma persistBookings_run items s :
  persistBookings items s =
  (Returned tt, if storage_fails (world s) then save_failed s else saved items s).
Proof.
  destruct s as [u w].
  cbv beta iota delta [persistBookings try_catch_finally bind setIsSyncing
    modify_ui AsyncStorage_setItem get_world console_error Alert_alert
    modify_world throw saved save_failed ui world].
  destruct (storage_fails w); reflexivity.
Qed.

Lemma handleSubmit_valid s d :
  form_valid (ui s) d -> handleSubmit s = (Returned tt, submitted d s).
Proof.
  intros (Hn & Hd & Hs). unfold handleSubmit, bind at 1, get_ui.
  rewrite Hd, safeParse_valid by assumption.
  unfold bind at 1, Date_now, bind at 1, get_world, ret.
  unfold bind at 1, setBookings at 1, modify_ui at 1.
  unfold bind at 1. rewrite persistBookings_run.
  unfold submitted, created, newBooking, memory. cbn [data_name data_date data_service ui world].
  rewrite trim_idem.
  destruct (storage_fails (world s)); reflexivity.
Qed.

Lemma handleSubmit_invalid s errs :
  safeParse (mkFormInput (UI.name (ui s)) (UI.selectedDate (ui s))
                         (Some (UI.service (ui s)))) = Failure errs ->
  handleSubmit s = (Returned tt, rejected errs s).
Proof.
  intros H. unfold handleSubmit, bind, get_ui. now rewrite H.
Qed.

Lemma handleDelete_run id0 s :
  handleDelete id0 s = (Returned tt, deleted id0 s).
Proof.
  unfold handleDelete, bind at 1, get_ui.
  unfold bind, setBookings, modify_ui. rewrite persistBookings_run.
  reflexivity.
Qed.

Lemma loadBookings_run opts s :
  loadBookings opts s =
  if storage_fails (world s) then (Returned tt, load_failed opts StorageError s)
  else
    match stored_blob s with
    | None | Some [] => (Returned tt, loaded opts [] s)
    | Some blob =>
        match JSON_parse blob with
        | ParsedBookings items => (Returned tt, loaded opts items s)
        | ParsedOther v => (Untyped v, mkSys (end_loading opts (ui s)) (world s))
        | ParseThrows => (Returned tt, load_failed opts SyntaxError s)
        end
    end.
Proof.
  destruct s as [u w]. unfold stored_blob.
  cbv beta iota zeta delta [loadBookings try_catch_finally bind setIsLoading setRefreshing
    modify_ui AsyncStorage_getItem get_world console_error Alert_alert
    modify_world throw ret setBookings_untyped setBookings loaded load_failed
    begin_loading end_loading showLoading ui world].
  destruct opts as [[|]|]; destruct (storage_fails w); try reflexivity;
    destruct (kv_get STORAGE_KEY (kv w)) as [[|c blob]|]; try reflexivity;
    match goal with |- context [JSON_parse ?b] => destruct (JSON_parse b) end;
    reflexivity.
Qed.

(** ** Lists *)

Lemma Subseq_filter {A} (p : A -> bool) (l : list A) : Subseq (filter p l) l.
Proof.
  induction l as [|x l IH]; cbn [filter]; [constructor|].
  destruct (p x); now constructor.
Qed.

Lemma Subseq_refl {A} (l : list A) : Subseq l l.
Proof. induction l; now constructor. Qed.

Lemma filter_all {A} (p : A -> bool) (l : list A) :
  (forall x, In x l -> p x = true) -> filter p l = l.
Proof.
  induction l as [|x l IH]; intros H; cbn [filter]; [reflexivity|].
  rewrite (H x) by now left. f_equal. apply IH. intros y Hy. apply H. now right.
Qed.

Lemma filter_split_length {A} (p : A -> bool) (l : list A) :
  length (filter p l) + length (filter (fun x => negb (p x)) l) = length l.
Proof.
  induction l as [|x l IH]; cbn [filter]; [reflexivity|].
  destruct (p x); cbn [negb length]; lia.
Qed.

Lemma forallb_filter {A} (p q : A -> bool) (l : list A) :
  forallb p l = true -> forallb p (filter q l) = true.
Proof.
  rewrite !forallb_forall. intros H x Hx. apply filter_In in Hx as [Hx _]. now apply H.
Qed.

(** ** The store *)

Lemma JSON_stringify_cons items : exists c tl, JSON_stringify items = c :: tl.
Proof. unfold JSON_stringify. cbn [stringify]. eauto. Qed.

Lemma stored_blob_saved items s :
  stored_blob (saved items s) = Some (JSON_stringify items).
Proof. unfold stored_blob, saved. cbn [world kv put_kv]. apply kv_get_set. Qed.

Lemma loadBookings_after_save opts items s :
  storage_fails (world s) = false ->
  stored_blob s = Some (JSON_stringify items) ->
  loadBookings opts s = (Returned tt, loaded opts items s).
Proof.
  intros Hok Hblob. rewrite loadBookings_run, Hok, Hblob.
  destruct (JSON_stringify_cons items) as (c & tl & E). rewrite E, <- E.
  now rewrite JSON_round_trip.
Qed.

Lemma memory_loaded opts items s : memory (loaded opts items s) = items.
Proof. unfold memory, loaded, end_loading. now destruct (showLoading opts). Qed.

Lemma memory_submitted d s : memory (submitted d s) = created s d :: memory s.
Proof. reflexivity. Qed.

Lemma world_submitted d s :
  world (submitted d s) =
  world (if storage_fails (world s) then save_failed s
         else saved (created s d :: memory s) s).
Proof. reflexivity. Qed.

(** C2: submitting a valid form returns normally and leaves in memory the
    created record followed by the old collection, so exactly one record
    more; the text [JSON.stringify] writes for that collection parses back
    to the same collection; when the storage accepts the write, the stored
    blob is that text and a reload puts the same collection in memory. *)
Theorem submit_prepends_and_round_trips s d :
  form_valid (ui s) d ->
  let s' := snd (handleSubmit s) in
  fst (handleSubmit s) = Returned tt
  /\ memory s' = created s d :: memory s
  /\ length (memory s') = S (length (memory s))
  /\ JSON_parse (JSON_stringify (memory s')) = ParsedBookings (memory s')
  /\ (storage_fails (world s) = false ->
      stored_blob s' = Some (JSON_stringify (memory s'))
      /\ forall opts,
           fst (loadBookings opts s') = Returned tt
           /\ memory (snd (loadBookings opts s')) = memory s').
Proof.
  intros Hv. rewrite (handleSubmit_valid s d Hv). cbn [fst snd].
  rewrite memory_submitted.
  repeat split.
  - apply JSON_round_trip.
  - unfold stored_blob. rewrite world_submitted, H.
    apply (stored_blob_saved (created s d :: memory s) s).
  - rewrite (loadBookings_after_save opts (created s d :: memory s)); [reflexivity| |].
    + rewrite world_submitted, H. exact H.
    + unfold stored_blob. rewrite world_submitted, H.
      apply (stored_blob_saved (created s d :: memory s) s).
  - rewrite (loadBookings_after_save opts (created s d :: memory s)).
    + cbn [snd]. now rewrite memory_loaded.
    + rewrite world_submitted, H. exact H.
    + unfold stored_blob. rewrite world_submitted, H.
      apply (stored_blob_saved (created s d :: memory s) s).
Qed.

Lemma submit_witness_valid : form_valid (ui Ex.filled) 1714521600000%Z.
Proof.
  repeat split; [discriminate | now left].
Qed.

Lemma submit_prepends_and_round_trips_witness :
  memory (snd (handleSubmit Ex.filled)) = [Ex.alice; Ex.bob; Ex.ann]
  /\ JSON_parse (JSON_stringify [Ex.alice; Ex.bob; Ex.ann])
     = ParsedBookings [Ex.alice; Ex.bob; Ex.ann]
  /\ stored_blob (snd (handleSubmit Ex.filled))
     = Some (JSON_stringify [Ex.alice; Ex.bob; Ex.ann])
  /\ memory (snd (loadBookings None (snd (handleSubmit Ex.filled))))
     = [Ex.alice; Ex.bob; Ex.ann].
Proof.
  pose proof (submit_prepends_and_round_trips Ex.filled 1714521600000%Z
                submit_witness_valid) as (_ & H1 & _ & H2 & H3).
  destruct (H3 eq_refl) as [H4 H5]. destruct (H5 None) as [_ H6].
  rewrite H1 in H2, H4, H6.
  split; [exact H1 | split; [exact H2 | split; [exact H4 | exact H6]]].
Defined.

(** C3: when the name is empty or made of white space only, [handleSubmit]
    returns with the name error set and changes neither the collection in
    memory nor anything outside the component, the stored blob included. *)
Theorem blank_name_is_rejected s :
  blank (UI.name (ui s)) ->
  let r := handleSubmit s in
  fst r = Returned tt
  /\ err_name (UI.errors (ui (snd r))) = Some (lit "Name is required")
  /\ memory (snd r) = memory s
  /\ world (snd r) = world s
  /\ stored_blob (snd r) = stored_blob s.
Proof.
  intros Hb.
  destruct (safeParse_blank_name (UI.name (ui s)) (UI.selectedDate (ui s))
              (Some (UI.service (ui s))) Hb) as (errs & Hf & He).
  cbv zeta. rewrite (handleSubmit_invalid s errs Hf). cbn [fst snd].
  repeat split. exact He.
Qed.

Lemma blank_name_is_rejected_witness :
  blank (lit "   ")
  /\ memory (snd (handleSubmit Ex.spaces)) = [Ex.bob; Ex.ann]
  /\ stored_blob (snd (handleSubmit Ex.spaces)) = None.
Proof.
  assert (Hb : blank (lit "   ")) by (repeat constructor).
  split; [exact Hb|].
  destruct (blank_name_is_rejected Ex.spaces Hb) as (_ & _ & Hm & _ & Hs).
  split; [exact Hm | exact Hs].
Defined.

Lemma memory_deleted id0 s : memory (deleted id0 s) = kept id0 (memory s).
Proof. unfold deleted. now destruct (storage_fails (world s)). Qed.

Lemma In_kept id0 items b : In b (kept id0 items) <-> In b items /\ id b <> id0.
Proof.
  unfold kept. rewrite filter_In, negb_true_iff, str_eqb_neq. tauto.
Qed.

(** C4: [handleDelete(id0)] returns normally; the collection it leaves holds
    exactly the records whose [id] is not [id0], in their former order, as
    many as there were minus the matching ones; when no record matches, the
    collection is the one before; when the storage accepts the write, the
    stored blob is the text of that collection and parses back to it. *)
Theorem delete_removes_matching s id0 :
  let r := handleDelete id0 s in
  let s' := snd r in
  fst r = Returned tt
  /\ (forall b, In b (memory s') <-> In b (memory s) /\ id b <> id0)
  /\ Subseq (memory s') (memory s)
  /\ length (memory s')
       + length (filter (fun b => str_eqb (id b) id0) (memory s))
     = length (memory s)
  /\ ((forall b, In b (memory s) -> id b <> id0) -> memory s' = memory s)
  /\ (storage_fails (world s) = false ->
      stored_blob s' = Some (JSON_stringify (memory s'))
      /\ JSON_parse (JSON_stringify (memory s')) = ParsedBookings (memory s')).
Proof.
  cbv zeta. rewrite handleDelete_run. cbn [fst snd]. rewrite memory_deleted.
  split; [reflexivity|]. split; [intros b; apply In_kept|].
  split; [apply Subseq_filter|]. split.
  - unfold kept. rewrite Nat.add_comm.
    exact (filter_split_length (fun b => str_eqb (id b) id0) (memory s)).
  - split.
    + intros H. apply filter_all. intros b Hb. apply negb_true_iff, str_eqb_neq.
      now apply H.
    + intros Hok. split; [|apply JSON_round_trip].
      unfold deleted. rewrite Hok. apply stored_blob_saved.
Qed.

Lemma delete_removes_matching_witness :
  memory (snd (handleDelete (lit "42") Ex.filled)) = [Ex.bob; Ex.ann]
  /\ stored_blob (snd (handleDelete (lit "42") Ex.filled))
     = Some (JSON_stringify [Ex.bob; Ex.ann]).
Proof.
  destruct (delete_removes_matching Ex.filled (lit "42"))
    as (_ & _ & _ & _ & H & Hs).
  assert (E : memory (snd (handleDelete (lit "42") Ex.filled)) = [Ex.bob; Ex.ann]).
  { apply H. intros b [<-|[<-|[]]]; discriminate. }
  destruct (Hs eq_refl) as [Hb _]. rewrite E in Hb.
  split; [exact E | exact Hb].
Defined.

Lemma loadBookings_fails opts s :
  load_fails s ->
  exists e, loadBookings opts s = (Returned tt, load_failed opts e s).
Proof.
  intros H. rewrite loadBookings_run.
  destruct H as [-> | (blob & -> & Hne & E)]; [now exists StorageError|].
  destruct (storage_fails (world s)); [now exists StorageError|].
  destruct blob; [contradiction|]. rewrite E. now exists SyntaxError.
Qed.

Lemma memory_load_failed opts e s : memory (load_failed opts e s) = memory s.
Proof. unfold memory, load_failed, end_loading. now destruct (showLoading opts). Qed.

Lemma booking_of_json_inv j b : booking_of_json j = Some b -> json_of_booking b = j.
Proof.
  unfold booking_of_json, json_of_booking.
  destruct j as [| | | |l|ms]; try discriminate.
  destruct ms as [|[k1 [| | |a| |]] ms]; try discriminate.
  destruct ms as [|[k2 [| | |b0| |]] ms]; try discriminate.
  destruct ms as [|[k3 [| | |c| |]] ms]; try discriminate.
  destruct ms as [|[k4 [| | |d| |]] ms]; try discriminate.
  destruct ms as [|m ms]; try discriminate.
  destruct (str_eqb k1 (lit "id")) eqn:E1; [|discriminate].
  destruct (str_eqb k2 (lit "name")) eqn:E2; [|discriminate].
  destruct (str_eqb k3 (lit "date")) eqn:E3; [|discriminate].
  destruct (str_eqb k4 (lit "service")) eqn:E4; [|discriminate].
  cbn [andb]. intros H. injection H as <-.
  apply str_eqb_eq in E1, E2, E3, E4. subst. reflexivity.
Qed.

Lemma traverse_inv {A B} (f : A -> option B) (g : B -> A) :
  (forall a b, f a = Some b -> g b = a) ->
  forall l l', traverse f l = Some l' -> List.map g l' = l.
Proof.
  intros H. induction l as [|a l IH]; intros l'; cbn [traverse].
  - intros E. now injection E as <-.
  - destruct (f a) as [b|] eqn:Ea; [|discriminate].
    destruct (traverse f l) as [r|]; [|discriminate].
    intros E. injection E as <-. cbn [List.map].
    now rewrite (H a b Ea), (IH r eq_refl).
Qed.

Lemma bookings_of_json_inv j items :
  bookings_of_json j = Some items -> json_of_bookings items = j.
Proof.
  unfold bookings_of_json, json_of_bookings.
  destruct j as [| | | |l|ms]; try discriminate.
  intros H. f_equal. exact (traverse_inv _ _ booking_of_json_inv l items H).
Qed.

Lemma bookings_of_json_of_bookings items :
  bookings_of_json (json_of_bookings items) = Some items.
Proof.
  unfold bookings_of_json, json_of_bookings.
  apply traverse_map. apply booking_of_json_of_booking.
Qed.

Lemma loadBookings_parsed opts s blob v :
  storage_fails (world s) = false ->
  stored_blob s = Some blob -> blob <> [] -> parse blob = Some v ->
  loadBookings opts s =
  match bookings_of_json v with
  | Some items => (Returned tt, loaded opts items s)
  | None => (Untyped v, mkSys (end_loading opts (ui s)) (world s))
  end.
Proof.
  intros Hok Hb Hne Hp. rewrite loadBookings_run, Hok, Hb.
  destruct blob as [|c blob]; [contradiction|].
  unfold JSON_parse. rewrite Hp. now destruct (bookings_of_json v).
Qed.

Lemma spinner_down_end_loading opts u : spinner_down opts (end_loading opts u).
Proof. unfold spinner_down, end_loading. now destruct (showLoading opts). Qed.


(** C6: [loadBookings] never lets an exception out and always lowers the
    spinner it raised.  When the read goes through and the value is absent
    or empty it leaves the empty collection and shows no alert.  When a
    blob is present and is JSON, it hands the parsed value to [setBookings]
    and shows no alert: the cell holds exactly that value, and when the
    value is a collection (the text the application wrote for any
    collection is one) the handler returns and that collection is in
    memory.  When the read is rejected or the blob is not JSON it returns
    normally and shows the load alert. *)
Theorem load_outcomes opts s :
  let r := loadBookings opts s in
  (forall e, fst r <> Thrown e)
  /\ spinner_down opts (ui (snd r))
  /\ (storage_fails (world s) = false ->
      stored_blob s = None \/ stored_blob s = Some [] ->
      fst r = Returned tt /\ memory (snd r) = []
      /\ alerts (world (snd r)) = alerts (world s))
  /\ (forall blob v,
      storage_fails (world s) = false ->
      stored_blob s = Some blob -> blob <> [] -> parse blob = Some v ->
      cell_after r = Some v
      /\ alerts (world (snd r)) = alerts (world s)
      /\ forall items, bookings_of_json v = Some items ->
           fst r = Returned tt /\ memory (snd r) = items)
  /\ (forall items,
      storage_fails (world s) = false ->
      stored_blob s = Some (JSON_stringify items) ->
      fst r = Returned tt /\ memory (snd r) = items
      /\ alerts (world (snd r)) = alerts (world s))
  /\ (forall blob items,
      storage_fails (world s) = false ->
      stored_blob s = Some blob -> JSON_parse blob = ParsedBookings items ->
      fst r = Returned tt /\ memory (snd r) = items
      /\ alerts (world (snd r)) = alerts (world s))
  /\ (load_fails s ->
      fst r = Returned tt
      /\ alerts (world (snd r)) = alerts (world s) ++ [load_alert]).
Proof.
  cbv zeta. split; [|split; [|split; [|split; [|split; [|split]]]]].
  - intros e. rewrite loadBookings_run.
    destruct (storage_fails (world s)); [discriminate|].
    destruct (stored_blob s) as [[|c blob]|]; try discriminate.
    destruct (JSON_parse (c :: blob)); discriminate.
  - rewrite loadBookings_run.
    destruct (storage_fails (world s)); [apply spinner_down_end_loading|].
    destruct (stored_blob s) as [[|c blob]|]; try apply spinner_down_end_loading.
    destruct (JSON_parse (c :: blob)); apply spinner_down_end_loading.
  - intros Hok Hb. rewrite loadBookings_run, Hok.
    destruct Hb as [-> | ->]; cbn [fst snd]; rewrite memory_loaded; repeat split.
  - intros blob v Hok Hb Hne Hp.
    rewrite (loadBookings_parsed opts s blob v Hok Hb Hne Hp).
    destruct (bookings_of_json v) as [items|] eqn:E.
    + unfold cell_after. cbn [fst snd]. rewrite memory_loaded.
      rewrite (bookings_of_json_inv v items E).
      split; [reflexivity|]. split; [reflexivity|].
      intros items' H. injection H as <-. now split.
    + split; [reflexivity|]. split; [reflexivity|]. intros items H. discriminate.
  - intros items Hok Hb.
    rewrite (loadBookings_after_save opts items s Hok Hb). cbn [fst snd].
    rewrite memory_loaded. repeat split.
  - intros blob items Hok Hb Hp. rewrite loadBookings_run, Hok, Hb.
    destruct blob as [|c blob]; [discriminate Hp|].
    rewrite Hp. cbn [fst snd]. rewrite memory_loaded. repeat split.
  - intros Hf. destruct (loadBookings_fails opts s Hf) as [e ->]. repeat split.
Qed.

Lemma load_outcomes_witness :
  memory (snd (loadBookings None Ex.filled)) = []
  /\ memory (snd (loadBookings None (Ex3.over (JSON_stringify [Ex.alice])))) = [Ex.alice]
  /\ memory (snd (loadBookings None (Ex3.over Ex3.spaced))) = [Ex.alice]
  /\ cell_after (loadBookings None (Ex3.over (stringify Ex3.reordered)))
     = Some Ex3.reordered
  /\ cell_after (loadBookings None (Ex3.over (lit "null"))) = Some JNull
  /\ alerts (world (snd (loadBookings None (Ex3.over (lit "null"))))) = []
  /\ alerts (world (snd (loadBookings None Ex.garbled))) = [load_alert]
  /\ alerts (world (snd (loadBookings None Ex.broken))) = [load_alert].
Proof.
  split; [|split; [|split; [|split; [|split; [|split; [|split]]]]]].
  - destruct (load_outcomes None Ex.filled) as (_ & _ & H & _).
    apply H; [reflexivity | now left].
  - destruct (load_outcomes None (Ex3.over (JSON_stringify [Ex.alice])))
      as (_ & _ & _ & _ & H & _).
    apply (H [Ex.alice]); reflexivity.
  - destruct (load_outcomes None (Ex3.over Ex3.spaced)) as (_ & _ & _ & H & _).
    destruct (H Ex3.spaced (json_of_bookings [Ex.alice])) as (_ & _ & H1);
      [reflexivity | reflexivity | discriminate | reflexivity |].
    apply (H1 [Ex.alice]). reflexivity.
  - destruct (load_outcomes None (Ex3.over (stringify Ex3.reordered)))
      as (_ & _ & _ & H & _).
    apply (H (stringify Ex3.reordered) Ex3.reordered);
      [reflexivity | reflexivity | discriminate | reflexivity].
  - destruct (load_outcomes None (Ex3.over (lit "null"))) as (_ & _ & _ & H & _).
    apply (H (lit "null") JNull); [reflexivity | reflexivity | discriminate | reflexivity].
  - destruct (load_outcomes None (Ex3.over (lit "null"))) as (_ & _ & _ & H & _).
    apply (H (lit "null") JNull); [reflexivity | reflexivity | discriminate | reflexivity].
  - destruct (load_outcomes None Ex.garbled) as (_ & _ & _ & _ & _ & _ & H).
    apply H. right. exists (lit "[{"). repeat split. discriminate.
  - destruct (load_outcomes None Ex.broken) as (_ & _ & _ & _ & _ & _ & H).
    apply H. now left.
Defined.

(** C10: when [loadBookings] fails, by a rejected read or by a stored text
    that is not JSON, the collection in memory is the one before the call,
    and so is the storage. *)
Theorem failed_load_keeps_memory opts s :
  load_fails s ->
  memory (snd (loadBookings opts s)) = memory s
  /\ kv (world (snd (loadBookings opts s))) = kv (world s).
Proof.
  intros H. destruct (loadBookings_fails opts s H) as [e ->]. cbn [snd].
  split; [apply memory_load_failed | reflexivity].
Qed.

Lemma failed_load_keeps_memory_witness :
  memory (snd (loadBookings None Ex.garbled)) = [Ex.bob; Ex.ann]
  /\ memory (snd (loadBookings (Some false) Ex.broken)) = [Ex.bob; Ex.ann].
Proof.
  split.
  - apply (failed_load_keeps_memory None Ex.garbled).
    right. exists (lit "[{"). repeat split. discriminate.
  - apply (failed_load_keeps_memory (Some false) Ex.broken). now left.
Defined.

(** C7: while the storage rejects writes, [persistBookings] returns
    normally, shows the save alert and changes neither the collection nor
    the storage; so a submission of a valid form still leaves the created
    record prepended, and a deletion still leaves the filtered collection,
    each with the alert shown and nothing thrown. *)
Theorem failed_persist_keeps_update s :
  storage_fails (world s) = true ->
  (forall items,
     fst (persistBookings items s) = Returned tt
     /\ memory (snd (persistBookings items s)) = memory s
     /\ alerts (world (snd (persistBookings items s))) = alerts (world s) ++ [save_alert]
     /\ kv (world (snd (persistBookings items s))) = kv (world s))
  /\ (forall d, form_valid (ui s) d ->
      fst (handleSubmit s) = Returned tt
      /\ memory (snd (handleSubmit s)) = created s d :: memory s
      /\ alerts (world (snd (handleSubmit s))) = alerts (world s) ++ [save_alert]
      /\ kv (world (snd (handleSubmit s))) = kv (world s))
  /\ (forall id0,
      fst (handleDelete id0 s) = Returned tt
      /\ memory (snd (handleDelete id0 s)) = kept id0 (memory s)
      /\ alerts (world (snd (handleDelete id0 s))) = alerts (world s) ++ [save_alert]
      /\ kv (world (snd (handleDelete id0 s))) = kv (world s)).
Proof.
  intros Hf. split; [|split].
  - intros items. rewrite persistBookings_run, Hf. repeat split.
  - intros d Hv. rewrite (handleSubmit_valid s d Hv). cbn [fst snd].
    rewrite world_submitted, Hf. repeat split.
  - intros id0. rewrite handleDelete_run. cbn [fst snd].
    rewrite memory_deleted. unfold deleted. rewrite Hf. repeat split.
Qed.

Lemma failed_persist_keeps_update_witness :
  memory (snd (handleSubmit Ex.broken)) = [Ex.alice; Ex.bob; Ex.ann]
  /\ alerts (world (snd (handleSubmit Ex.broken))) = [save_alert]
  /\ memory (snd (handleDelete (lit "1700000000001") Ex.broken)) = [Ex.ann].
Proof.
  destruct (failed_persist_keeps_update Ex.broken eq_refl) as (_ & Hs & Hd).
  destruct (Hs 1714521600000%Z submit_witness_valid) as (_ & Hm & Ha & _).
  destruct (Hd (lit "1700000000001")) as (_ & Hm' & _).
  split; [exact Hm | split; [exact Ha | exact Hm']].
Defined.

(** ** The store invariant *)

Lemma safeParse_Success_inv n sd sv data :
  safeParse (mkFormInput n sd (Some sv)) = Success data ->
  trim n <> [] /\ sd = Some (data_date data) /\ In sv SERVICE_OPTIONS.
Proof.
  intros H.
  destruct (safeParse_Success_data (mkFormInput n sd (Some sv)) data H)
    as (Hn & Hne & Hd & Hs & Hin).
  cbn [in_name in_date in_service] in *. injection Hs as ->.
  split; [now rewrite <- Hn | split; assumption].
Qed.

Lemma valid_created s d : form_valid (ui s) d -> valid_booking (created s d) = true.
Proof.
  intros (Hn & _ & Hs). unfold valid_booking, created. cbn [name service].
  rewrite trim_idem. apply andb_true_iff. split.
  - destruct (is_empty (trim (UI.name (ui s)))) eqn:E; [|reflexivity].
    apply is_empty_true in E. contradiction.
  - now apply is_service_In.
Qed.

Lemma handleSubmit_cases s :
  (exists errs, handleSubmit s = (Returned tt, rejected errs s))
  \/ (exists d, form_valid (ui s) d /\ handleSubmit s = (Returned tt, submitted d s)).
Proof.
  destruct (safeParse (mkFormInput (UI.name (ui s)) (UI.selectedDate (ui s))
                         (Some (UI.service (ui s))))) as [data|errs] eqn:E.
  - right. exists (data_date data).
    apply safeParse_Success_inv in E as (Hn & Hd & Hs).
    assert (Hv : form_valid (ui s) (data_date data)) by (repeat split; assumption).
    split; [exact Hv | now apply handleSubmit_valid].
  - left. exists errs. now apply handleSubmit_invalid.
Qed.

Lemma blob_ok_saved items s :
  forallb valid_booking items = true -> blob_ok (stored_blob (saved items s)).
Proof.
  intros H. rewrite stored_blob_saved. unfold blob_ok. now rewrite JSON_round_trip.
Qed.

Lemma insert_keeps_valid s :
  forallb valid_booking (memory s) = true ->
  forallb valid_booking (memory (snd (handleSubmit s))) = true.
Proof.
  intros H. destruct (handleSubmit_cases s) as [[errs ->]|(d & Hv & ->)]; cbn [snd].
  - exact H.
  - rewrite memory_submitted. cbn [forallb]. now rewrite valid_created, H.
Qed.

Lemma delete_keeps_valid id0 s :
  forallb valid_booking (memory s) = true ->
  forallb valid_booking (memory (snd (handleDelete id0 s))) = true.
Proof.
  intros H. rewrite handleDelete_run. cbn [snd]. rewrite memory_deleted.
  now apply forallb_filter.
Qed.

Lemma run_keeps_store_ok s o :
  store_ok s -> fst (run o s) = Returned tt /\ store_ok (snd (run o s)).
Proof.
  intros [Hm Hb]. destruct o as [opts| |id0]; cbn [run].
  - rewrite loadBookings_run.
    assert (Hf : forall e, store_ok (load_failed opts e s)).
    { intros e. split; [now rewrite memory_load_failed | exact Hb]. }
    assert (Hl : forall items, forallb valid_booking items = true ->
                               store_ok (loaded opts items s)).
    { intros items Hi. split; [now rewrite memory_loaded | exact Hb]. }
    destruct (storage_fails (world s)); [split; [reflexivity | apply Hf]|].
    unfold blob_ok in Hb.
    destruct (stored_blob s) as [[|c blob]|]; try (split; [reflexivity | now apply Hl]).
    destruct (JSON_parse (c :: blob)) as [items|j|].
    + split; [reflexivity | now apply Hl].
    + contradiction.
    + split; [reflexivity | apply Hf].
  - destruct (handleSubmit_cases s) as [[errs E]|(d & Hv & E)].
    + rewrite E. split; [reflexivity|]. split; [exact Hm | exact Hb].
    + split; [now rewrite E|]. split; [now apply insert_keeps_valid|].
      rewrite E. cbn [snd]. unfold stored_blob. rewrite world_submitted.
      destruct (storage_fails (world s)); [exact Hb|].
      apply (blob_ok_saved (created s d :: memory s) s).
      cbn [forallb]. now rewrite valid_created, Hm.
  - split; [now rewrite handleDelete_run|]. split; [now apply delete_keeps_valid|].
    rewrite handleDelete_run. cbn [snd]. unfold deleted.
    destruct (storage_fails (world s)); [exact Hb|].
    apply blob_ok_saved. now apply forallb_filter.
Qed.

(** C8, as amended: an insert and a delete keep every booking of the
    collection within the constraints whatever the storage holds; a load
    does when the persisted blob holds only such bookings: the invariant on
    the collection and the blob together is kept by the three operations,
    each of which then returns normally. *)
Theorem store_invariant s :
  (forallb valid_booking (memory s) = true ->
   forallb valid_booking (memory (snd (run Insert s))) = true
   /\ forall id0, forallb valid_booking (memory (snd (run (Delete id0) s))) = true)
  /\ (store_ok s ->
      forall o, fst (run o s) = Returned tt /\ store_ok (snd (run o s))).
Proof.
  split.
  - intros H. split; [now apply insert_keeps_valid|].
    intros id0. now apply delete_keeps_valid.
  - intros H o. now apply run_keeps_store_ok.
Qed.

Lemma store_ok_filled : store_ok Ex.filled.
Proof. split; reflexivity. Qed.

Lemma store_invariant_witness :
  store_ok (snd (run Insert Ex.filled))
  /\ store_ok (snd (run (Load None) (snd (run Insert Ex.filled)))).
Proof.
  destruct (store_invariant Ex.filled) as [_ H].
  destruct (H store_ok_filled Insert) as [_ H1].
  split; [exact H1|].
  destruct (store_invariant (snd (run Insert Ex.filled))) as [_ H2].
  exact (proj2 (H2 H1 (Load None))).
Defined.

(** C8, as claimed: a load is not bound by the constraints.  Over a storage
    whose blob holds a record with an empty name, the collection satisfies
    them before the load and breaks them after it. *)
Lemma load_breaks_validity :
  forallb valid_booking (memory Ex.foreign) = true
  /\ fst (run (Load None) Ex.foreign) = Returned tt
  /\ memory (snd (run (Load None) Ex.foreign)) = [Ex.stray]
  /\ forallb valid_booking (memory (snd (run (Load None) Ex.foreign))) = false.
Proof. vm_compute. repeat split. Qed.

(** ** Search *)

Lemma matches_blank lower q b : blank q -> matches lower q b = true.
Proof. intros H. unfold matches. apply trim_nil_iff in H. now rewrite H. Qed.

Lemma matches_not_blank lower q b :
  ~ blank q ->
  matches lower q b = contains_ci lower (name b) q || contains_ci lower (service b) q.
Proof.
  intros H. unfold matches.
  destruct (is_empty (trim q)) eqn:E; [|reflexivity].
  apply is_empty_true, trim_nil_iff in E. contradiction.
Qed.

(** C9: a query made of white space only, empty or not, filters nothing
    out: the result is the whole collection in store order, the same as for
    the empty query. *)
Theorem blank_query_shows_all lower u :
  blank (UI.searchQuery u) ->
  filteredBookings lower u = UI.bookings u
  /\ filteredBookings lower u = filteredBookings lower (UI.set_searchQuery [] u).
Proof.
  intros H. assert (E : forall v, blank (UI.searchQuery v) ->
                                  filteredBookings lower v = UI.bookings v).
  { intros v Hv. unfold filteredBookings. apply filter_all.
    intros b _. now apply matches_blank. }
  split; [now apply E|].
  rewrite (E u H), (E (UI.set_searchQuery [] u)); [reflexivity | constructor].
Qed.

Lemma blank_query_shows_all_witness :
  blank [32; 9; 12288]%N
  /\ filteredBookings toLowerCase_ascii (ui (Ex.searching [32; 9; 12288]%N))
     = [Ex.bob; Ex.ann].
Proof.
  assert (Hb : blank [32; 9; 12288]%N) by (repeat constructor).
  split; [exact Hb|].
  exact (proj1 (blank_query_shows_all toLowerCase_ascii
                  (ui (Ex.searching [32; 9; 12288]%N)) Hb)).
Defined.

(** C5, as amended: the result is always a subsequence of the collection.
    For a query that is empty or made of white space only it is the whole
    collection.  For any other query it is what the specification words:
    the records whose lower-cased name or service contains the lower-cased
    query, and a record is in it exactly when it is in the collection and
    its name or service contains the query in that sense. *)
Theorem search_filter_spec lower u :
  let q := UI.searchQuery u in
  Subseq (filteredBookings lower u) (UI.bookings u)
  /\ (blank q -> filteredBookings lower u = UI.bookings u)
  /\ (~ blank q ->
      filteredBookings lower u = search_by_spec lower q (UI.bookings u)
      /\ forall b,
           In b (filteredBookings lower u) <->
           In b (UI.bookings u)
           /\ ((exists pre post, lower (name b) = pre ++ lower q ++ post)
               \/ (exists pre post, lower (service b) = pre ++ lower q ++ post))).
Proof.
  cbv zeta. split; [apply Subseq_filter|]. split.
  - intros H. unfold filteredBookings. apply filter_all.
    intros b _. now apply matches_blank.
  - intros H. split.
    + unfold filteredBookings, search_by_spec. apply filter_ext.
      intros b. now apply matches_not_blank.
    + intros b. unfold filteredBookings.
      rewrite filter_In, matches_not_blank by exact H.
      unfold contains_ci. now rewrite orb_true_iff, !includes_spec.
Qed.

Lemma search_filter_spec_witness :
  filteredBookings toLowerCase_ascii (ui (Ex.searching (lit "jon"))) = [Ex.bob]
  /\ filteredBookings toLowerCase_ascii (ui (Ex.searching [])) = [Ex.bob; Ex.ann].
Proof.
  split.
  - destruct (search_filter_spec toLowerCase_ascii (ui (Ex.searching (lit "jon"))))
      as (_ & _ & H).
    destruct H as [H _]; [|exact H].
    intros Hb. inversion Hb as [|? ? Hc _]. discriminate Hc.
  - destruct (search_filter_spec toLowerCase_ascii (ui (Ex.searching [])))
      as (_ & H & _).
    apply H. constructor.
Defined.

(** C5, as claimed: for a query of one space the filter keeps Ann, whose
    name and service contain no space; the records that contain the query
    are Bob alone. *)
Lemma search_space_query_counterexample :
  filteredBookings toLowerCase_ascii (ui (Ex.searching (lit " ")))
    <> search_by_spec toLowerCase_ascii (lit " ") [Ex.bob; Ex.ann]
  /\ filteredBookings toLowerCase_ascii (ui (Ex.searching (lit " "))) = [Ex.bob; Ex.ann]
  /\ search_by_spec toLowerCase_ascii (lit " ") [Ex.bob; Ex.ann] = [Ex.bob]
  /\ contains_ci toLowerCase_ascii (name Ex.ann) (lit " ") = false
  /\ contains_ci toLowerCase_ascii (service Ex.ann) (lit " ") = false.
Proof. vm_compute. repeat split. discriminate. Qed.

(** ** Reachable states *)

Lemma step_keeps_store_ok s s' : store_ok s -> step s s' -> store_ok s'.
Proof.
  intros Hs Hstep. destruct Hstep as [o s|u' s Hu|w' s Hw].
  - now apply run_keeps_store_ok.
  - destruct Hs as [Hm Hb]. split; [|exact Hb].
    unfold memory in *. cbn [ui]. now rewrite Hu.
  - destruct Hs as [Hm Hb]. split; [exact Hm|].
    unfold stored_blob in *. cbn [world]. now rewrite Hw.
Qed.

(** Whatever the user and the environment do, the component that started
    over an empty storage holds only bookings within the constraints, in
    memory and in the blob. *)
Theorem reachable_store_ok s : reachable s -> store_ok s.
Proof.
  induction 1 as [w Hw|s s' _ IH Hstep].
  - split; [reflexivity|]. unfold stored_blob. cbn [world]. now rewrite Hw.
  - now apply (step_keeps_store_ok s).
Qed.

(** ** The examples of the specification *)

Example iso_2024_05_01 :
  toISOString 1714521600000 = lit "2024-05-01T00:00:00.000Z".
Proof. reflexivity. Qed.

Example iso_last_instant_of_1969 :
  toISOString (-1) = lit "1969-12-31T23:59:59.999Z".
Proof. reflexivity. Qed.

Example iso_leap_day :
  toISOString 951782400123 = lit "2000-02-29T00:00:00.123Z".
Proof. reflexivity. Qed.

Example trim_keeps_inner_spaces : trim (lit "  Bob  Jones ") = lit "Bob  Jones".
Proof. reflexivity. Qed.

Example submit_alice :
  let s' := snd (handleSubmit Ex.filled) in
  memory s' = [Ex.alice; Ex.bob; Ex.ann]
  /\ option_map JSON_parse (stored_blob s')
     = Some (ParsedBookings [Ex.alice; Ex.bob; Ex.ann])
  /\ memory (snd (loadBookings None s')) = [Ex.alice; Ex.bob; Ex.ann].
Proof. vm_compute. repeat split. Qed.

Example missing_date_is_reported :
  safeParse (mkFormInput (lit "Alice") None (Some (lit "Haircut")))
  = Failure [mkIssue FDate (lit "Date is required")].
Proof. reflexivity. Qed.

Example foreign_service_is_reported :
  safeParse (mkFormInput (lit "Alice") (Some 0%Z) (Some (lit "Spa")))
  = Failure [mkIssue FService (lit "Service is required")].
Proof. reflexivity. Qed.

Example delete_absent_id :
  memory (snd (handleDelete (lit "42") Ex.filled)) = memory Ex.filled.
Proof. reflexivity. Qed.

Example search_jon :
  filteredBookings toLowerCase_ascii (ui (Ex.searching (lit "jon"))) = [Ex.bob].
Proof. reflexivity. Qed.

Example search_upper_case :
  filteredBookings toLowerCase_ascii (ui (Ex.searching (lit "CONSULT"))) = [Ex.ann].
Proof. reflexivity. Qed.

Example search_empty :
  filteredBookings toLowerCase_ascii (ui (Ex.searching [])) = [Ex.bob; Ex.ann].
Proof. reflexivity. Qed.

Example reload_empty_value :
  let s := mkSys (ui Ex.filled) (mkWorld [(STORAGE_KEY, [])] false 0 [] []) in
  loadBookings None s = (Returned tt, loaded None [] s).
Proof. reflexivity. Qed.

Example parse_rejects_trailing_comma : parse (lit "[1,]") = None.
Proof. reflexivity. Qed.

Example parse_reads_any_value :
  parse (lit " [1, -2.5e3, true, null, {}] ")
  = Some (JArr [JNum (lit "1"); JNum (lit "-2.5e3"); JBool true; JNull; JObj []]).
Proof. reflexivity. Qed.

(** * More of the component *)

(** ** Storage: what is written, and under which key *)

Lemma kv_get_set_other k k' v m :
  k' <> k -> kv_get k' (kv_set k v m) = kv_get k' m.
Proof.
  intros Hne. unfold kv_set. cbn [kv_get].
  assert (E : str_eqb k' k = false) by now apply str_eqb_neq.
  rewrite E. clear E.
  induction m as [|[k0 v0] m IH]; [reflexivity|].
  cbn [filter fst kv_get].
  destruct (str_eqb k k0) eqn:Ek; cbn [negb].
  - apply str_eqb_eq in Ek. subst k0.
    assert (E : str_eqb k' k = false) by now apply str_eqb_neq.
    now rewrite E.
  - cbn [kv_get]. destruct (str_eqb k' k0); [reflexivity | exact IH].
Qed.

Lemma kv_loadBookings opts s :
  kv (world (snd (loadBookings opts s))) = kv (world s).
Proof.
  rewrite loadBookings_run.
  destruct (storage_fails (world s)); [reflexivity|].
  destruct (stored_blob s) as [[|c blob]|]; try reflexivity.
  destruct (JSON_parse (c :: blob)); reflexivity.
Qed.

Lemma kv_get_persistBookings items s key :
  key <> STORAGE_KEY ->
  kv_get key (kv (world (snd (persistBookings items s)))) = kv_get key (kv (world s)).
Proof.
  intros Hk. rewrite persistBookings_run. cbn [snd].
  destruct (storage_fails (world s)); [reflexivity|].
  unfold saved. cbn [world kv put_kv]. now apply kv_get_set_other.
Qed.

(** X1: no operation on the store, and no call of [persistBookings], changes
    what the storage holds under a key other than [STORAGE_KEY]; a load
    writes nothing at all. *)
Theorem other_keys_untouched s key :
  key <> STORAGE_KEY ->
  (forall o, kv_get key (kv (world (snd (run o s)))) = kv_get key (kv (world s)))
  /\ (forall items,
        kv_get key (kv (world (snd (persistBookings items s))))
        = kv_get key (kv (world s)))
  /\ (forall opts, kv (world (snd (loadBookings opts s))) = kv (world s)).
Proof.
  intros Hk. split; [|split].
  - intros [opts| |id0]; cbn [run].
    + now rewrite kv_loadBookings.
    + destruct (handleSubmit_cases s) as [[errs ->]|(d & Hv & ->)]; [reflexivity|].
      cbn [snd]. rewrite world_submitted.
      destruct (storage_fails (world s)); [reflexivity|].
      unfold saved. cbn [world kv put_kv]. now apply kv_get_set_other.
    + rewrite handleDelete_run. cbn [snd]. unfold deleted.
      destruct (storage_fails (world s)); [reflexivity|].
      unfold saved. cbn [world kv put_kv]. now apply kv_get_set_other.
  - intros items. now apply kv_get_persistBookings.
  - intros opts. apply kv_loadBookings.
Qed.

Lemma other_keys_untouched_witness :
  kv_get (lit "theme") (kv (world (snd (run Insert Ex2.online)))) = Some (lit "dark")
  /\ kv_get (lit "theme") (kv (world (snd (run (Delete (lit "1700000000001")) Ex2.online))))
     = Some (lit "dark").
Proof.
  assert (Hk : lit "theme" <> STORAGE_KEY) by discriminate.
  destruct (other_keys_untouched Ex2.online (lit "theme") Hk) as [H _].
  split; [exact (H Insert) | exact (H (Delete (lit "1700000000001")))].
Defined.

(** X2: whatever collection [persistBookings] is given, when the storage
    accepts the write a following [loadBookings] returns normally, puts
    exactly that collection in memory and shows no alert. *)
Theorem persist_then_load items opts s :
  storage_fails (world s) = false ->
  let s1 := snd (persistBookings items s) in
  fst (persistBookings items s) = Returned tt
  /\ fst (loadBookings opts s1) = Returned tt
  /\ memory (snd (loadBookings opts s1)) = items
  /\ alerts (world (snd (loadBookings opts s1))) = alerts (world s).
Proof.
  intros Hok. cbv zeta. rewrite persistBookings_run, Hok. cbn [fst snd].
  split; [reflexivity|].
  rewrite (loadBookings_after_save opts items (saved items s)).
  - cbn [fst snd]. rewrite memory_loaded. repeat split.
  - exact Hok.
  - apply stored_blob_saved.
Qed.

Lemma persist_then_load_witness :
  memory (snd (loadBookings None (snd (persistBookings [Ex.stray; Ex.alice] Ex.filled))))
  = [Ex.stray; Ex.alice].
Proof.
  exact (proj1 (proj2 (proj2 (persist_then_load [Ex.stray; Ex.alice] None Ex.filled eq_refl)))).
Defined.

(** X3: a record whose save was rejected does not survive a reload.  When
    the blob holds a collection, the storage rejects the write of a valid
    submission and later works again, the next load puts the stored
    collection back in memory: the submitted record is gone. *)
Theorem unsaved_record_lost_on_reload s d old w' opts :
  form_valid (ui s) d ->
  storage_fails (world s) = true ->
  stored_blob s = Some (JSON_stringify old) ->
  kv w' = kv (world (snd (handleSubmit s))) ->
  storage_fails w' = false ->
  let s1 := snd (handleSubmit s) in
  memory s1 = created s d :: memory s
  /\ fst (loadBookings opts (mkSys (ui s1) w')) = Returned tt
  /\ memory (snd (loadBookings opts (mkSys (ui s1) w'))) = old.
Proof.
  intros Hv Hf Hb Hkv Hok. cbv zeta.
  rewrite (handleSubmit_valid s d Hv) in *. cbn [snd] in *.
  split; [apply memory_submitted|].
  rewrite world_submitted, Hf in Hkv. cbn [save_failed world put_alerts put_console kv] in Hkv.
  rewrite (loadBookings_after_save opts old).
  - cbn [fst snd]. now rewrite memory_loaded.
  - exact Hok.
  - unfold stored_blob in *. cbn [world]. now rewrite Hkv.
Qed.

Lemma offline_valid : form_valid (ui Ex2.offline) 1714521600000%Z.
Proof. repeat split; [discriminate | now left]. Qed.

Lemma unsaved_record_lost_on_reload_witness :
  memory (snd (handleSubmit Ex2.offline)) = [Ex.alice; Ex.bob; Ex.ann]
  /\ memory (snd (loadBookings None
                    (mkSys (ui (snd (handleSubmit Ex2.offline))) (world Ex2.online))))
     = [Ex.bob; Ex.ann].
Proof.
  destruct (unsaved_record_lost_on_reload Ex2.offline 1714521600000%Z
              [Ex.bob; Ex.ann] (world Ex2.online) None
              offline_valid eq_refl eq_refl eq_refl eq_refl) as (H1 & _ & H2).
  split; [exact H1 | exact H2].
Defined.

(** ** The form *)

Lemma ui_submitted d s :
  ui (submitted d s) =
  UI.set_errors no_errors
    (UI.set_service (lit "Haircut")
       (UI.set_selectedDate None
          (UI.set_name []
             (UI.set_bookings (created s d :: memory s)
                (UI.set_isSyncing false (ui s)))))).
Proof. unfold submitted. cbn [ui]. now destruct (storage_fails (world s)). Qed.

Lemma safeParse_expected u :
  match safeParse (mkFormInput (UI.name u) (UI.selectedDate u) (Some (UI.service u))) with
  | Success _ => exists d, form_valid u d
  | Failure errs => fieldErrors_of errs = expected_errors u
  end.
Proof.
  unfold safeParse, schema_name, schema_date, schema_service, expected_errors, form_valid.
  cbn [in_name in_date in_service].
  destruct (is_empty (trim (UI.name u))) eqn:En;
    destruct (UI.selectedDate u) as [d|];
    destruct (is_service (UI.service u)) eqn:Es; try reflexivity.
  exists d. split; [|split; [reflexivity | now apply is_service_In]].
  intros E. rewrite E in En. discriminate.
Qed.

(** X4: after a submission that passes validation the form is back to its
    first state (empty name, no date, the first service, no error) and the
    save indicator is off, whether the save went through or not; the search
    box and the picker are as before.  A second press right after it adds
    nothing: the collection and the storage stay as the first left them. *)
Theorem submit_resets_form s d :
  form_valid (ui s) d ->
  let s1 := snd (handleSubmit s) in
  UI.name (ui s1) = []
  /\ UI.selectedDate (ui s1) = None
  /\ UI.service (ui s1) = lit "Haircut"
  /\ UI.errors (ui s1) = no_errors
  /\ UI.isSyncing (ui s1) = false
  /\ UI.searchQuery (ui s1) = UI.searchQuery (ui s)
  /\ UI.showDatePicker (ui s1) = UI.showDatePicker (ui s)
  /\ fst (handleSubmit s1) = Returned tt
  /\ memory (snd (handleSubmit s1)) = memory s1
  /\ world (snd (handleSubmit s1)) = world s1.
Proof.
  intros Hv. cbv zeta. rewrite (handleSubmit_valid s d Hv). cbn [snd].
  rewrite ui_submitted. do 7 (split; [reflexivity|]).
  assert (E : handleSubmit (submitted d s)
              = (Returned tt,
                 rejected [mkIssue FName (lit "Name is required");
                           mkIssue FDate (lit "Date is required")] (submitted d s))).
  { apply handleSubmit_invalid. rewrite ui_submitted. reflexivity. }
  rewrite E. repeat split.
Qed.

Lemma submit_resets_form_witness :
  UI.name (ui (snd (handleSubmit Ex2.offline))) = []
  /\ memory (snd (handleSubmit (snd (handleSubmit Ex.filled))))
     = [Ex.alice; Ex.bob; Ex.ann].
Proof.
  split.
  - exact (proj1 (submit_resets_form Ex2.offline 1714521600000%Z offline_valid)).
  - destruct (submit_resets_form Ex.filled 1714521600000%Z submit_witness_valid)
      as (_ & _ & _ & _ & _ & _ & _ & _ & H & _).
    rewrite H. reflexivity.
Defined.

(** X5: a submission that fails validation returns normally, touches
    nothing outside the component and no cell but the errors, and leaves
    there exactly one message per failing field, none for the others,
    whatever the errors were before. *)
Theorem rejected_submit_recomputes_errors s :
  (forall d, ~ form_valid (ui s) d) ->
  handleSubmit s
  = (Returned tt, mkSys (UI.set_errors (expected_errors (ui s)) (ui s)) (world s)).
Proof.
  intros Hn. pose proof (safeParse_expected (ui s)) as H.
  destruct (safeParse (mkFormInput (UI.name (ui s)) (UI.selectedDate (ui s))
                         (Some (UI.service (ui s))))) as [data|errs] eqn:E.
  - destruct H as [d Hd]. now destruct (Hn d).
  - rewrite (handleSubmit_invalid s errs E). unfold rejected. now rewrite H.
Qed.

Lemma complained_invalid : forall d, ~ form_valid (ui Ex2.complained) d.
Proof. intros d (H & _). now apply H. Qed.

Lemma rejected_submit_recomputes_errors_witness :
  UI.errors (ui (snd (handleSubmit Ex2.complained)))
  = mkFormErrors (Some (lit "Name is required")) (Some (lit "Date is required")) None
  /\ UI.errors (ui (snd (handleSubmit
        (mkSys (UI.set_errors (mkFormErrors None None (Some (lit "stale")))
                  (ui Ex2.complained)) Ex.world0))))
     = mkFormErrors (Some (lit "Name is required")) (Some (lit "Date is required")) None.
Proof.
  split.
  - now rewrite (rejected_submit_recomputes_errors Ex2.complained complained_invalid).
  - now rewrite (rejected_submit_recomputes_errors
                   (mkSys (UI.set_errors (mkFormErrors None None (Some (lit "stale")))
                             (ui Ex2.complained)) Ex.world0) complained_invalid).
Defined.

(** X6: [handleSubmit], [handleDelete] and [persistBookings] return normally
    in every state, with the storage up or down; each shows at most one
    alert, after those already shown, and none when the storage works. *)
Theorem handlers_return_and_alert_once s :
  let quiet (r : outcome unit * Sys) :=
    fst r = Returned tt
    /\ exists extra,
         alerts (world (snd r)) = alerts (world s) ++ extra
         /\ (extra = [] \/ extra = [save_alert])
         /\ (storage_fails (world s) = false -> extra = []) in
  quiet (handleSubmit s)
  /\ (forall id0, quiet (handleDelete id0 s))
  /\ (forall items, quiet (persistBookings items s)).
Proof.
  cbv zeta.
  assert (Hp : forall u items,
    exists extra,
      alerts (world (if storage_fails (world s)
                     then save_failed (mkSys u (world s))
                     else saved items (mkSys u (world s))))
      = alerts (world s) ++ extra
      /\ (extra = [] \/ extra = [save_alert])
      /\ (storage_fails (world s) = false -> extra = [])).
  { intros u items. destruct (storage_fails (world s)).
    - exists [save_alert]. repeat split; [now right | discriminate].
    - exists []. cbn [saved world put_kv alerts]. rewrite app_nil_r.
      repeat split. now left. }
  split; [|split].
  - destruct (handleSubmit_cases s) as [[errs ->]|(d & Hv & ->)];
      (split; [reflexivity|]); cbn [snd].
    + exists []. cbn [rejected world]. rewrite app_nil_r. repeat split. now left.
    + rewrite world_submitted.
      destruct (Hp (ui s) (created s d :: memory s)) as (extra & H).
      exists extra. destruct s as [u w]. exact H.
  - intros id0. rewrite handleDelete_run. split; [reflexivity|]. cbn [snd].
    unfold deleted. cbn [world].
    exact (Hp (UI.set_bookings (kept id0 (memory s)) (ui s)) (kept id0 (memory s))).
  - intros items. rewrite persistBookings_run. split; [reflexivity|]. cbn [snd].
    destruct (Hp (ui s) items) as (extra & H).
    exists extra. destruct s as [u w]. exact H.
Qed.

(** ** The date picker *)

Lemma handleDateChange_run ty date0 s :
  handleDateChange ty date0 s =
  (Returned tt,
   mkSys (UI.set_showDatePicker false
            (if str_eqb ty (lit "dismissed") then ui s
             else match date0 with
                  | Some d =>
                      UI.set_errors (clear_error FDate (UI.errors (ui s)))
                        (UI.set_selectedDate (Some d) (ui s))
                  | None => ui s
                  end))
         (world s)).
Proof.
  unfold handleDateChange.
  destruct (str_eqb ty (lit "dismissed")); [reflexivity|].
  destruct date0; reflexivity.
Qed.

(** X7: [handleDateChange] always returns with the picker closed and changes
    nothing else but, for an event other than a dismissal that carries a
    date, the selected date, which becomes that date, and the date error,
    which is cleared; the name and service errors stay.  A dismissal, and
    an event without a date, leave the date and the errors as they were. *)
Theorem handleDateChange_effect ty date0 s :
  let s1 := snd (handleDateChange ty date0 s) in
  fst (handleDateChange ty date0 s) = Returned tt
  /\ UI.showDatePicker (ui s1) = false
  /\ world s1 = world s /\ memory s1 = memory s
  /\ UI.name (ui s1) = UI.name (ui s) /\ UI.service (ui s1) = UI.service (ui s)
  /\ err_name (UI.errors (ui s1)) = err_name (UI.errors (ui s))
  /\ err_service (UI.errors (ui s1)) = err_service (UI.errors (ui s))
  /\ (forall d, ty <> lit "dismissed" -> date0 = Some d ->
        UI.selectedDate (ui s1) = Some d /\ err_date (UI.errors (ui s1)) = None)
  /\ (ty = lit "dismissed" \/ date0 = None ->
        UI.selectedDate (ui s1) = UI.selectedDate (ui s)
        /\ UI.errors (ui s1) = UI.errors (ui s)).
Proof.
  cbv zeta. rewrite handleDateChange_run. cbn [fst snd].
  destruct (str_eqb ty (lit "dismissed")) eqn:E.
  - apply str_eqb_eq in E. do 8 (split; [reflexivity|]). split.
    + intros d Hd. contradiction.
    + intros _. split; reflexivity.
  - apply str_eqb_neq in E. destruct date0 as [d0|];
      do 8 (split; [reflexivity|]); split.
    + intros d _ H. injection H as <-. split; reflexivity.
    + intros [H|H]; [contradiction | discriminate].
    + intros d _ H. discriminate.
    + intros _. split; reflexivity.
Qed.

Lemma handleDateChange_effect_witness :
  UI.selectedDate (ui (snd (handleDateChange (lit "set") (Some 86400000%Z) Ex2.complained)))
  = Some 86400000%Z
  /\ UI.errors (ui (snd (handleDateChange (lit "set") (Some 86400000%Z) Ex2.complained)))
     = mkFormErrors (Some (lit "Name is required")) None None
  /\ UI.errors (ui (snd (handleDateChange (lit "dismissed") (Some 86400000%Z) Ex2.complained)))
     = UI.errors (ui Ex2.complained).
Proof.
  destruct (handleDateChange_effect (lit "set") (Some 86400000%Z) Ex2.complained)
    as (_ & _ & _ & _ & _ & _ & _ & _ & H & _).
  destruct (H 86400000%Z) as [H1 _]; [discriminate | reflexivity |].
  destruct (handleDateChange_effect (lit "dismissed") (Some 86400000%Z) Ex2.complained)
    as (_ & _ & _ & _ & _ & _ & _ & _ & _ & H2).
  destruct H2 as [_ H2]; [now left|].
  split; [exact H1 | split; [reflexivity | exact H2]].
Defined.

(** X8: a date picked in the picker is the date of the next record.  After
    an event other than a dismissal carrying [d], with a name that is not
    blank and a service of the enum, [handleSubmit] prepends a record whose
    date is [d.toISOString()]. *)
Theorem picked_date_is_submitted ty d s :
  ty <> lit "dismissed" ->
  trim (UI.name (ui s)) <> [] ->
  In (UI.service (ui s)) SERVICE_OPTIONS ->
  let s1 := snd (handleDateChange ty (Some d) s) in
  fst (handleSubmit s1) = Returned tt
  /\ memory (snd (handleSubmit s1))
     = mkBooking (toString (now (world s))) (trim (UI.name (ui s)))
                 (toISOString d) (UI.service (ui s))
       :: memory s.
Proof.
  intros Hty Hn Hs. cbv zeta. rewrite handleDateChange_run. cbn [snd].
  apply str_eqb_neq in Hty. rewrite Hty.
  set (s1 := mkSys _ _).
  assert (Hv : form_valid (ui s1) d) by (repeat split; assumption).
  rewrite (handleSubmit_valid s1 d Hv). cbn [fst snd].
  split; [reflexivity | exact (memory_submitted d s1)].
Qed.

Lemma picked_date_is_submitted_witness :
  memory (snd (handleSubmit (snd (handleDateChange (lit "set") (Some 0%Z) Ex.filled))))
  = mkBooking (lit "1714521600000") (lit "Alice") (lit "1970-01-01T00:00:00.000Z")
              (lit "Haircut") :: [Ex.bob; Ex.ann].
Proof.
  refine (proj2 (picked_date_is_submitted (lit "set") 0%Z Ex.filled _ _ _)).
  - discriminate.
  - discriminate.
  - now left.
Defined.

(** ** Identifiers *)



(** X10: deleting the record just submitted gives the collection back.  When
    no record of the collection carries the decimal clock reading as its
    identifier, a valid submission followed by the deletion of the new
    identifier leaves the collection as it was before both; when the storage
    works, the blob is then the text of that collection. *)
Theorem submit_then_delete_restores s d :
  form_valid (ui s) d ->
  (forall b, In b (memory s) -> id b <> toString (now (world s))) ->
  let s1 := snd (handleSubmit s) in
  let s2 := snd (handleDelete (toString (now (world s))) s1) in
  memory s2 = memory s
  /\ (storage_fails (world s) = false ->
      stored_blob s2 = Some (JSON_stringify (memory s))).
Proof.
  intros Hv Hfresh. cbv zeta. rewrite (handleSubmit_valid s d Hv). cbn [snd].
  rewrite handleDelete_run. cbn [snd].
  assert (E : kept (toString (now (world s))) (memory (submitted d s)) = memory s).
  { rewrite memory_submitted. unfold kept. cbn [filter created id].
    rewrite str_eqb_refl. cbn [negb]. apply filter_all.
    intros b Hb. apply negb_true_iff, str_eqb_neq. now apply Hfresh. }
  split.
  - now rewrite memory_deleted.
  - intros Hok. unfold deleted. rewrite E, world_submitted, Hok. cbn [saved world].
    cbn [storage_fails put_kv]. rewrite Hok. apply stored_blob_saved.
Qed.

Lemma submit_then_delete_restores_witness :
  memory (snd (handleDelete (lit "1714521600000") (snd (handleSubmit Ex.filled))))
  = [Ex.bob; Ex.ann].
Proof.
  refine (proj1 (submit_then_delete_restores Ex.filled 1714521600000%Z
                   submit_witness_valid _)).
  intros b [<-|[<-|[]]]; discriminate.
Defined.

(** X11: when the clock did not move between two submissions the two records
    share their identifier, and one press on Delete removes both: after a
    valid submission, a second one at the same clock reading and the
    deletion of the first record's identifier, the collection holds neither
    of the two. *)
Theorem same_reading_records_deleted_together s1 d1 s2 d2 :
  form_valid (ui s1) d1 -> form_valid (ui s2) d2 ->
  memory s2 = memory (snd (handleSubmit s1)) ->
  now (world s2) = now (world s1) ->
  let s3 := snd (handleDelete (id (created s1 d1)) (snd (handleSubmit s2))) in
  memory s3 = kept (id (created s1 d1)) (memory s1)
  /\ ~ In (created s1 d1) (memory s3) /\ ~ In (created s2 d2) (memory s3).
Proof.
  intros Hv1 Hv2 Hm Hn. cbv zeta.
  rewrite (handleSubmit_valid s1 d1 Hv1) in Hm. cbn [snd] in Hm.
  rewrite memory_submitted in Hm.
  rewrite (handleSubmit_valid s2 d2 Hv2). cbn [snd].
  rewrite handleDelete_run. cbn [snd]. rewrite memory_deleted, memory_submitted, Hm.
  assert (E : id (created s2 d2) = id (created s1 d1))
    by (unfold created; cbn [id]; now rewrite Hn).
  assert (Hk : kept (id (created s1 d1)) (created s2 d2 :: created s1 d1 :: memory s1)
               = kept (id (created s1 d1)) (memory s1)).
  { unfold kept. cbn [filter]. now rewrite E, str_eqb_refl. }
  rewrite Hk. split; [reflexivity|].
  split; intros Hin; apply In_kept in Hin as [_ Hne]; congruence.
Qed.

Lemma refilled_valid : form_valid (ui Ex2.refilled) 0%Z.
Proof. repeat split; [discriminate | right; now left]. Qed.

Lemma same_reading_records_deleted_together_witness :
  memory (snd (handleDelete (lit "1714521600000") (snd (handleSubmit Ex2.refilled))))
  = [Ex.bob; Ex.ann].
Proof.
  exact (proj1 (same_reading_records_deleted_together
                  Ex.filled 1714521600000%Z Ex2.refilled 0%Z
                  submit_witness_valid refilled_valid eq_refl eq_refl)).
Defined.






(** ** Deleting *)

Lemma kept_kept a b items : kept a (kept b items) = kept b (kept a items).
Proof.
  unfold kept. induction items as [|x l IH]; [reflexivity|]. cbn [filter].
  destruct (negb (str_eqb (id x) a)) eqn:Ea; destruct (negb (str_eqb (id x) b)) eqn:Eb;
    cbn [filter]; rewrite ?Ea, ?Eb; now rewrite IH.
Qed.

Lemma kept_idem a items : kept a (kept a items) = kept a items.
Proof.
  unfold kept. apply filter_all. intros x Hx. now apply filter_In in Hx.
Qed.

(** X12: deletions can be repeated and reordered.  Deleting an identifier a
    second time changes nothing in the collection, and deleting two
    identifiers leaves the same collection in either order. *)
Theorem delete_idempotent_and_commutes a b s :
  memory (snd (handleDelete a (snd (handleDelete a s)))) = memory (snd (handleDelete a s))
  /\ memory (snd (handleDelete a (snd (handleDelete b s))))
     = memory (snd (handleDelete b (snd (handleDelete a s)))).
Proof.
  rewrite !handleDelete_run. cbn [snd]. rewrite !memory_deleted.
  split; [apply kept_idem | apply kept_kept].
Qed.

(** ** Searching *)

Lemma filter_filter_comm {A} (p q : A -> bool) (l : list A) :
  filter p (filter q l) = filter q (filter p l).
Proof.
  induction l as [|x l IH]; [reflexivity|]. cbn [filter].
  destruct (p x) eqn:Ep; destruct (q x) eqn:Eq; cbn [filter];
    rewrite ?Ep, ?Eq; now rewrite IH.
Qed.

Lemma searchQuery_deleted id0 s :
  UI.searchQuery (ui (deleted id0 s)) = UI.searchQuery (ui s).
Proof. unfold deleted. now destruct (storage_fails (world s)). Qed.

(** X13: searching and deleting commute.  What the list shows after
    [handleDelete(id0)] is what it showed before, less the records whose
    identifier is [id0]; the search box is not touched. *)
Theorem search_after_delete lower id0 s :
  filteredBookings lower (ui (snd (handleDelete id0 s)))
  = kept id0 (filteredBookings lower (ui s))
  /\ UI.searchQuery (ui (snd (handleDelete id0 s))) = UI.searchQuery (ui s).
Proof.
  rewrite handleDelete_run. cbn [snd]. rewrite searchQuery_deleted.
  split; [|reflexivity].
  unfold filteredBookings. rewrite searchQuery_deleted.
  change (UI.bookings (ui (deleted id0 s))) with (memory (deleted id0 s)).
  rewrite memory_deleted. unfold kept, memory. apply filter_filter_comm.
Qed.

(** X14: the letter case of the query does not matter.  For a
    lower-casing that the lower-cased query is a fixed point of, and that
    neither makes the query blank nor stops it being so, the list shown for
    the query and for the lower-cased query are the same. *)
Theorem search_ignores_query_case lower q u :
  lower (lower q) = lower q ->
  is_empty (trim (lower q)) = is_empty (trim q) ->
  filteredBookings lower (UI.set_searchQuery (lower q) u)
  = filteredBookings lower (UI.set_searchQuery q u).
Proof.
  intros Hi Hb. unfold filteredBookings. cbn [UI.searchQuery UI.bookings UI.set_searchQuery].
  apply filter_ext. intros b. unfold matches. now rewrite Hb, Hi.
Qed.

Lemma search_ignores_query_case_witness :
  filteredBookings toLowerCase_ascii (ui (Ex.searching (lit "jOn")))
  = filteredBookings toLowerCase_ascii (ui (Ex.searching (lit "jon"))).
Proof.
  symmetry.
  exact (search_ignores_query_case toLowerCase_ascii (lit "jOn")
           (ui (Ex.searching [])) eq_refl eq_refl).
Defined.

(** ** The stored name *)

Lemma trim_ends s :
  trim s = []
  \/ (isWhiteSpace (hd 32%N (trim s)) = false
      /\ isWhiteSpace (last (trim s) 32%N) = false).
Proof.
  unfold trim.
  destruct (trimStart_head s) as [->|(c & r & -> & Hc)]; [now left|]. right.
  split; [now rewrite trimEnd_cons_nonws|].
  unfold trimEnd.
  destruct (trimStart_head (rev (c :: r))) as [E|(c' & r' & E & Hc')].
  - apply trimStart_nil_iff in E. apply (proj1 (blank_rev (c :: r))) in E.
    inversion E as [|? ? Hw _]. congruence.
  - rewrite E. cbn [rev]. now rewrite last_last.
Qed.

(** X15: the name of a record created by [handleSubmit] is the name typed
    without the white space around it: it is not empty, it neither starts
    nor ends with a white-space character, and trimming it again changes
    nothing. *)
Theorem created_name_is_trimmed s d :
  form_valid (ui s) d ->
  exists b,
    memory (snd (handleSubmit s)) = b :: memory s
    /\ name b = trim (UI.name (ui s))
    /\ name b <> []
    /\ isWhiteSpace (hd 32%N (name b)) = false
    /\ isWhiteSpace (last (name b) 32%N) = false
    /\ trim (name b) = name b.
Proof.
  intros Hv. rewrite (handleSubmit_valid s d Hv). cbn [snd].
  exists (created s d). rewrite memory_submitted. cbn [created name].
  destruct Hv as (Hn & _). do 2 (split; [reflexivity|]). split; [exact Hn|].
  destruct (trim_ends (UI.name (ui s))) as [E|[H1 H2]]; [contradiction|].
  split; [exact H1 | split; [exact H2 | apply trim_idem]].
Qed.

Lemma created_name_is_trimmed_witness :
  exists b, memory (snd (handleSubmit Ex.filled)) = b :: [Ex.bob; Ex.ann]
            /\ name b = lit "Alice".
Proof.
  destruct (created_name_is_trimmed Ex.filled 1714521600000%Z submit_witness_valid)
    as (b & H1 & H2 & _).
  exists b. split; [exact H1 | exact H2].
Defined.

(** ** Field errors *)

Lemma fieldErrors_of_snoc errs e :
  fieldErrors_of (errs ++ [e]) = set_error (path0 e) (message e) (fieldErrors_of errs).
Proof. unfold fieldErrors_of. now rewrite fold_left_app. Qed.

Lemma error_of_set_error f g m fe :
  error_of f (set_error g m fe) = if Field_eqb g f then Some m else error_of f fe.
Proof. now destruct f, g. Qed.

Lemma Field_eqb_eq a b : Field_eqb a b = true <-> a = b.
Proof. destruct a, b; cbn; split; congruence. Qed.

(** X16: the loop that turns the issues of a failed validation into the
    [FormErrors] object leaves, for each field, the message of the last
    issue on that field, and no entry for a field without issue. *)
Theorem fieldErrors_last_issue_wins f errs :
  (error_of f (fieldErrors_of errs) = None <-> forall e, In e errs -> path0 e <> f)
  /\ (forall pre m post,
        errs = pre ++ mkIssue f m :: post ->
        (forall e, In e post -> path0 e <> f) ->
        error_of f (fieldErrors_of errs) = Some m).
Proof.
  split.
  - induction errs as [|e errs IH] using rev_ind.
    + split; [intros _ e [] | now destruct f].
    + rewrite fieldErrors_of_snoc, error_of_set_error.
      destruct (Field_eqb (path0 e) f) eqn:E.
      * apply Field_eqb_eq in E. split; [discriminate|].
        intros H. destruct (H e); [apply in_or_app; right; now left | exact E].
      * rewrite IH. split.
        -- intros H x Hx. apply in_app_or in Hx as [Hx|[<-|[]]]; [now apply H|].
           intros Ef. apply Field_eqb_eq in Ef. congruence.
        -- intros H x Hx. apply H, in_or_app. now left.
  - intros pre m post. revert errs.
    induction post as [|e post IH] using rev_ind; intros errs -> Hpost.
    + change (pre ++ [mkIssue f m]) with (pre ++ [mkIssue f m]).
      rewrite fieldErrors_of_snoc, error_of_set_error. cbn [path0 message].
      assert (E : Field_eqb f f = true) by now apply Field_eqb_eq.
      now rewrite E.
    + replace (pre ++ mkIssue f m :: post ++ [e])
        with ((pre ++ mkIssue f m :: post) ++ [e])
        by (rewrite <- app_assoc; reflexivity).
      rewrite fieldErrors_of_snoc, error_of_set_error.
      destruct (Field_eqb (path0 e) f) eqn:E.
      * apply Field_eqb_eq in E.
        destruct (Hpost e); [apply in_or_app; right; now left | exact E].
      * apply (IH _ eq_refl). intros x Hx. apply Hpost, in_or_app. now left.
Qed.

Lemma fieldErrors_last_issue_wins_witness :
  error_of FName (fieldErrors_of [mkIssue FName (lit "first"); mkIssue FDate (lit "d");
                                  mkIssue FName (lit "second")])
  = Some (lit "second").
Proof.
  destruct (fieldErrors_last_issue_wins FName
              [mkIssue FName (lit "first"); mkIssue FDate (lit "d");
               mkIssue FName (lit "second")]) as [_ H].
  apply (H [mkIssue FName (lit "first"); mkIssue FDate (lit "d")] (lit "second") []).
  - reflexivity.
  - intros e [].
Defined.

(** ** The running application *)


Lemma loadBookings_split opts s :
  loadBookings opts s = (loadBookings_begin opts ;; loadBookings_resume opts) s.
Proof. reflexivity. Qed.

Lemma persistBookings_split items s :
  persistBookings items s = (persistBookings_begin ;; persistBookings_resume items) s.
Proof. reflexivity. Qed.

Lemma handleSubmit_split s :
  handleSubmit s =
  (r <- handleSubmit_begin ;;
   match r with
   | Some items => handleSubmit_resume items
   | None => ret tt
   end) s.
Proof.
  destruct s as [u w].
  cbv beta iota zeta delta [handleSubmit handleSubmit_begin bind get_ui ui].
  destruct (safeParse _); reflexivity.
Qed.

Lemma handleDelete_split id0 s :
  handleDelete id0 s = (items <- handleDelete_begin id0 ;; handleDelete_resume items) s.
Proof. reflexivity. Qed.

Lemma loadBookings_resume_run opts s :
  loadBookings_resume opts s =
  if storage_fails (world s) then (Returned tt, load_failed opts StorageError s)
  else
    match stored_blob s with
    | None | Some [] => (Returned tt, loaded opts [] s)
    | Some blob =>
        match JSON_parse blob with
        | ParsedBookings items => (Returned tt, loaded opts items s)
        | ParsedOther v => (Untyped v, mkSys (end_loading opts (ui s)) (world s))
        | ParseThrows => (Returned tt, load_failed opts SyntaxError s)
        end
    end.
Proof.
  destruct s as [u w]. unfold stored_blob.
  cbv beta iota zeta delta [loadBookings_resume try_catch_finally bind setIsLoading
    setRefreshing modify_ui AsyncStorage_getItem get_world console_error Alert_alert
    modify_world throw ret setBookings_untyped setBookings loaded load_failed
    end_loading showLoading ui world].
  destruct opts as [[|]|]; destruct (storage_fails w); try reflexivity;
    destruct (kv_get STORAGE_KEY (kv w)) as [[|c blob]|]; try reflexivity;
    match goal with |- context [JSON_parse ?b] => destruct (JSON_parse b) end;
    reflexivity.
Qed.

Lemma persistBookings_resume_run items s :
  persistBookings_resume items s =
  (Returned tt, if storage_fails (world s) then save_failed s else saved items s).
Proof.
  destruct s as [u w].
  cbv beta iota zeta delta [persistBookings_resume try_catch_finally bind setIsSyncing
    modify_ui AsyncStorage_setItem get_world console_error Alert_alert
    modify_world throw saved save_failed ui world].
  destruct (storage_fails w); reflexivity.
Qed.

Lemma handleSubmit_resume_run items s :
  handleSubmit_resume items s =
  (Returned tt,
   reset_form (if storage_fails (world s) then save_failed s else saved items s)).
Proof.
  unfold handleSubmit_resume, bind at 1. rewrite persistBookings_resume_run.
  reflexivity.
Qed.

Lemma handleSubmit_begin_eq s :
  handleSubmit_begin s =
  match safeParse (mkFormInput (UI.name (ui s)) (UI.selectedDate (ui s))
                               (Some (UI.service (ui s)))) with
  | Failure errs => (Returned None, rejected errs s)
  | Success data =>
      (Returned (Some (newBooking (now (world s)) data :: memory s)),
       syncing (newBooking (now (world s)) data :: memory s) s)
  end.
Proof.
  destruct s as [u w].
  cbv beta iota zeta delta [handleSubmit_begin bind get_ui ui].
  destruct (safeParse _); reflexivity.
Qed.

Lemma handleSubmit_begin_run s :
  (exists errs, handleSubmit_begin s = (Returned None, rejected errs s)
                /\ fieldErrors_of errs = expected_errors (ui s))
  \/ (exists d, form_valid (ui s) d
                /\ handleSubmit_begin s
                   = (Returned (Some (created s d :: memory s)),
                      syncing (created s d :: memory s) s)).
Proof.
  pose proof (safeParse_expected (ui s)) as Hx.
  rewrite handleSubmit_begin_eq.
  destruct (safeParse (mkFormInput (UI.name (ui s)) (UI.selectedDate (ui s))
                         (Some (UI.service (ui s))))) as [data|errs] eqn:E.
  - right. exists (data_date data).
    apply safeParse_Success_inv in E as Hi. destruct Hi as (Hn & Hd & Hs).
    assert (Hv : form_valid (ui s) (data_date data)) by (repeat split; assumption).
    split; [exact Hv|].
    rewrite Hd, (safeParse_valid _ (data_date data) _ Hn Hs) in E.
    injection E as <-.
    unfold created, newBooking. cbn [data_name data_date data_service].
    now rewrite trim_idem.
  - left. exists errs. split; [reflexivity | exact Hx].
Qed.

Lemma handleDelete_begin_run id0 s :
  handleDelete_begin id0 s
  = (Returned (kept id0 (memory s)), syncing (kept id0 (memory s)) s).
Proof. reflexivity. Qed.

(** ** Lists with one element taken out *)

Lemma In_remove_nth {A} (x : A) : forall i l, In x (remove_nth i l) -> In x l.
Proof.
  unfold remove_nth. induction i as [|i IH]; intros [|y l]; cbn; intros H;
    try contradiction.
  - now right.
  - destruct H as [H|H]; [now left | right; now apply IH].
Qed.

Lemma In_remove_nth_other {A} (x y : A) : forall i l,
  nth_error l i = Some y -> In x l -> x <> y -> In x (remove_nth i l).
Proof.
  unfold remove_nth. induction i as [|i IH]; intros [|z l]; cbn; intros Hn Hin Hne;
    try discriminate.
  - injection Hn as ->. destruct Hin as [H|H]; [congruence | exact H].
  - destruct Hin as [H|H]; [now left | right; now apply IH].
Qed.


Lemma dispatch_sync e s :
  is_sync e = true ->
  start e s = (Returned None, snd (dispatch e s))
  /\ memory (snd (dispatch e s)) = memory s
  /\ world (snd (dispatch e s)) = world s
  /\ same_flags (ui s) (ui (snd (dispatch e s)))
  /\ (form_current (ui s) -> form_current (ui (snd (dispatch e s)))).
Proof.
  destruct e as [| |text| |ty date0|index| |id0|text]; try discriminate; intros _.
  - do 3 (split; [reflexivity|]). split; [repeat split|].
    intros (H1 & H2 & H3 & H4). cbn. repeat split; try assumption.
    intros H. now destruct H.
  - do 3 (split; [reflexivity|]). split; [repeat split|]. intros H. exact H.
  - assert (E : start (DateChange ty date0) s
                = (Returned None, snd (dispatch (DateChange ty date0) s))).
    { cbn [start dispatch]. unfold bind. rewrite handleDateChange_run. reflexivity. }
    split; [exact E|]. cbn [dispatch]. rewrite handleDateChange_run. cbn [snd].
    destruct (str_eqb ty (lit "dismissed"));
      [do 2 (split; [reflexivity|]); split; [repeat split | intros H; exact H]|].
    destruct date0 as [d|];
      [|do 2 (split; [reflexivity|]); split; [repeat split | intros H; exact H]].
    do 2 (split; [reflexivity|]). split; [repeat split|].
    intros (H1 & H2 & H3 & H4). cbn. repeat split; try assumption.
    intros H. now destruct H.
  - cbn [start dispatch]. unfold bind.
    destruct (nth_error SERVICE_OPTIONS index) as [opt|] eqn:E.
    + do 3 (split; [reflexivity|]). split; [repeat split|].
      intros (H1 & H2 & H3 & H4). apply nth_error_In in E.
      cbn. repeat split; assumption.
    + do 3 (split; [reflexivity|]). split; [repeat split|]. intros H. exact H.
  - do 3 (split; [reflexivity|]). split; [repeat split|]. intros H. exact H.
Qed.

Lemma start_PressSubmit s :
  start PressSubmit s =
  if UI.isSyncing (ui s) then (Returned None, s)
  else
    match handleSubmit_begin s with
    | (Returned r, s') =>
        (Returned (option_map (fun items => AwaitSetItem items true) r), s')
    | (Thrown e, s') => (Thrown e, s')
    | (Untyped v, s') => (Untyped v, s')
    end.
Proof.
  destruct s as [u w]. cbn [start]. unfold bind at 1, get_ui. cbn [ui].
  destruct (UI.isSyncing u); [reflexivity|].
  unfold bind at 1. destruct (handleSubmit_begin _) as [[r|e|v] s']; reflexivity.
Qed.

Lemma fire_keeps_ok e a :
  app_ok a -> (exists t, fst (start e (sys a)) = Returned t) /\ app_ok (fire e a).
Proof.
  intros Hok. pose proof Hok as (Hs & Hf & Hv & Hy & Hl & Hr). unfold fire.
  destruct (is_sync e) eqn:Esync.
  { destruct (dispatch_sync e (sys a) Esync) as (E & Hm & Hw & (F1 & F2 & F3) & Hform).
    rewrite E. cbn [fst snd new_task]. split; [now exists None|].
    rewrite app_nil_r. unfold app_ok. cbn [sys]. split; [|split].
    - destruct Hs as [H1 H2]. split; [now rewrite Hm|].
      unfold stored_blob. now rewrite Hw.
    - now apply Hform.
    - unfold spinners_owed. cbn [sys pending]. rewrite F1, F2, F3.
      exact (conj Hv (conj Hy (conj Hl Hr))). }
  assert (Hload : forall opts,
    app_ok (mkApp (mkSys (begin_loading opts (ui (sys a))) (world (sys a)))
                  (pending a ++ [AwaitGetItem opts]))).
  { intros opts. split; [|split].
    - destruct Hs as [H1 H2]. split; [|exact H2].
      unfold memory, begin_loading. cbn [sys ui].
      now destruct (showLoading opts).
    - destruct Hf as (H1 & H2 & H3 & H4). unfold begin_loading. cbn [sys ui].
      destruct (showLoading opts); repeat split; assumption.
    - unfold spinners_owed, begin_loading. cbn [sys ui pending].
      split; [|split; [|split]].
      + intros items r Hin. apply in_app_or in Hin as [Hin|[Hin|[]]];
          [now apply (Hv items r) | discriminate].
      + intros H. destruct Hy as (items & r & Hin).
        { destruct (showLoading opts); exact H. }
        exists items, r. apply in_or_app. now left.
      + intros H. destruct (showLoading opts) eqn:Eo.
        * exists opts. split; [apply in_or_app; right; now left | exact Eo].
        * destruct (Hl H) as (o & Hin & Ho). exists o.
          split; [apply in_or_app; now left | exact Ho].
      + intros H. destruct (showLoading opts) eqn:Eo.
        * destruct (Hr H) as (o & Hin & Ho). exists o.
          split; [apply in_or_app; now left | exact Ho].
        * exists opts. split; [apply in_or_app; right; now left | exact Eo]. }
  assert (Hsync : forall items r,
    forallb valid_booking items = true ->
    app_ok (mkApp (syncing items (sys a)) (pending a ++ [AwaitSetItem items r]))).
  { intros items r Hi. split; [|split].
    - destruct Hs as [H1 H2]. split; [exact Hi | exact H2].
    - exact Hf.
    - unfold spinners_owed. cbn [sys pending syncing ui].
      split; [|split; [|split]].
      + intros items' r' Hin. apply in_app_or in Hin as [Hin|[Hin|[]]];
          [now apply (Hv items' r')|]. now injection Hin as <- <-.
      + intros _. exists items, r. apply in_or_app. right. now left.
      + intros H. destruct (Hl H) as (o & Hin & Ho). exists o.
        split; [apply in_or_app; now left | exact Ho].
      + intros H. destruct (Hr H) as (o & Hin & Ho). exists o.
        split; [apply in_or_app; now left | exact Ho]. }
  destruct e as [| |text| |ty date0|index| |id0|text]; try discriminate.
  - split; [eexists; reflexivity | exact (Hload (Some true))].
  - split; [eexists; reflexivity | exact (Hload (Some false))].
  - rewrite start_PressSubmit.
    destruct (UI.isSyncing (ui (sys a))) eqn:Ey.
    + cbn [fst snd new_task]. split; [now exists None|]. rewrite app_nil_r.
      exact Hok.
    + destruct (handleSubmit_begin_run (sys a)) as [(errs & -> & He)|(d & Hd & ->)];
        cbn [fst snd option_map new_task].
      * split; [now exists None|]. rewrite app_nil_r. split; [|split].
        -- destruct Hs as [H1 H2]. split; [exact H1 | exact H2].
        -- unfold rejected. cbn [sys ui]. rewrite He.
           destruct Hf as (H1 & H2 & H3 & H4).
           unfold form_current, expected_errors. apply is_service_In in H1 as Hsv.
           rewrite Hsv.
           cbn [UI.errors UI.set_errors UI.service UI.name UI.selectedDate
                err_name err_date err_service].
           repeat split; try assumption.
           ++ destruct (is_empty (trim (UI.name (ui (sys a))))) eqn:En.
              ** intros _. now apply is_empty_true.
              ** intros H. now destruct H.
           ++ destruct (UI.selectedDate (ui (sys a)));
                [intros H; now destruct H | reflexivity].
        -- exact (proj2 (proj2 Hok)).
      * split; [eexists; reflexivity|]. apply Hsync.
        destruct Hs as [H1 _]. cbn [forallb]. now rewrite valid_created, H1.
  - cbn [start]. unfold bind. rewrite handleDelete_begin_run.
    cbn [fst snd ret new_task]. split; [eexists; reflexivity|]. apply Hsync.
    destruct Hs as [H1 _]. unfold kept.
    rewrite forallb_forall in *. intros x Hx.
    apply filter_In in Hx as [Hx _]. now apply H1.
Qed.

Lemma finish_keeps_ok i a :
  app_ok a ->
  (forall t, In t (pending a) -> fst (resume t (sys a)) = Returned tt)
  /\ app_ok (finish i a).
Proof.
  intros Hok. pose proof Hok as (Hs & Hf & Hv & Hy & Hl & Hr).
  assert (Hload : forall opts,
    fst (loadBookings_resume opts (sys a)) = Returned tt
    /\ store_ok (snd (loadBookings_resume opts (sys a)))
    /\ exists u, ui (snd (loadBookings_resume opts (sys a))) = end_loading opts u
                 /\ UI.service u = UI.service (ui (sys a))
                 /\ UI.errors u = UI.errors (ui (sys a))
                 /\ UI.name u = UI.name (ui (sys a))
                 /\ UI.selectedDate u = UI.selectedDate (ui (sys a))
                 /\ same_flags (ui (sys a)) u).
  { intros opts. rewrite loadBookings_resume_run.
    assert (Hfail : forall e, store_ok (load_failed opts e (sys a))).
    { intros e. split; [rewrite memory_load_failed; apply Hs | apply Hs]. }
    assert (Hgood : forall items, forallb valid_booking items = true ->
                                  store_ok (loaded opts items (sys a))).
    { intros items Hi. split; [now rewrite memory_loaded | apply Hs]. }
    assert (Hu : forall items,
      exists u, end_loading opts (UI.set_bookings items (ui (sys a))) = end_loading opts u
                /\ UI.service u = UI.service (ui (sys a))
                /\ UI.errors u = UI.errors (ui (sys a))
                /\ UI.name u = UI.name (ui (sys a))
                /\ UI.selectedDate u = UI.selectedDate (ui (sys a))
                /\ same_flags (ui (sys a)) u).
    { intros items. exists (UI.set_bookings items (ui (sys a))). repeat split. }
    assert (Hu' :
      exists u, end_loading opts (ui (sys a)) = end_loading opts u
                /\ UI.service u = UI.service (ui (sys a))
                /\ UI.errors u = UI.errors (ui (sys a))
                /\ UI.name u = UI.name (ui (sys a))
                /\ UI.selectedDate u = UI.selectedDate (ui (sys a))
                /\ same_flags (ui (sys a)) u).
    { exists (ui (sys a)). repeat split. }
    destruct (storage_fails (world (sys a)));
      [split; [reflexivity | split; [apply Hfail | exact Hu']]|].
    destruct Hs as [Hm Hb]. unfold blob_ok in Hb.
    destruct (stored_blob (sys a)) as [[|c blob]|];
      try (split; [reflexivity | split; [now apply Hgood | apply Hu]]).
    destruct (JSON_parse (c :: blob)) as [items|v|].
    - split; [reflexivity | split; [now apply Hgood | apply Hu]].
    - contradiction.
    - split; [reflexivity | split; [apply Hfail | exact Hu']]. }
  assert (Hsave : forall items,
    forallb valid_booking items = true ->
    store_ok (if storage_fails (world (sys a)) then save_failed (sys a)
              else saved items (sys a))).
  { intros items Hi. destruct Hs as [Hm Hb].
    destruct (storage_fails (world (sys a))); split; try exact Hm; try exact Hb.
    now apply blob_ok_saved. }
  split.
  - intros [opts|items [|]] Hin; cbn [resume].
    + apply Hload.
    + now rewrite handleSubmit_resume_run.
    + unfold handleDelete_resume. now rewrite persistBookings_resume_run.
  - unfold finish. destruct (nth_error (pending a) i) as [t|] eqn:Et; [|exact Hok].
    assert (Hin : In t (pending a)) by (eapply nth_error_In; exact Et).
    assert (Hv' : forall items r, In (AwaitSetItem items r) (remove_nth i (pending a)) ->
                                  forallb valid_booking items = true).
    { intros items r H. apply (Hv items r). now apply In_remove_nth in H. }
    destruct t as [opts|items r]; cbn [resume].
    + destruct (Hload opts) as (_ & Hst & u & Eu & U1 & U2 & U3 & U4 & F1 & F2 & F3).
      split; [exact Hst|]. cbn [sys]. rewrite Eu. split.
      * destruct Hf as (H1 & H2 & H3 & H4). unfold form_current, end_loading.
        destruct (showLoading opts); cbn; rewrite U1, U2, U3, U4; repeat split;
          assumption.
      * unfold spinners_owed. cbn [sys pending]. rewrite Eu.
        split; [exact Hv'|]. unfold end_loading.
        destruct (showLoading opts) eqn:Eo; cbn; rewrite ?F1, ?F2, ?F3;
          (split; [|split]); try discriminate.
        -- intros H. destruct (Hy H) as (items & r & Hi). exists items, r.
           apply (In_remove_nth_other _ _ i _ Et Hi). discriminate.
        -- intros H. destruct (Hr H) as (o & Hi & Ho). exists o. split; [|exact Ho].
           apply (In_remove_nth_other _ _ i _ Et Hi). intros E. injection E as ->.
           congruence.
        -- intros H. destruct (Hy H) as (items & r & Hi). exists items, r.
           apply (In_remove_nth_other _ _ i _ Et Hi). discriminate.
        -- intros H. destruct (Hl H) as (o & Hi & Ho). exists o. split; [|exact Ho].
           apply (In_remove_nth_other _ _ i _ Et Hi). intros E. injection E as ->.
           congruence.
    + assert (Hi : forallb valid_booking items = true) by exact (Hv items r Hin).
      assert (Hspin : forall u,
        UI.isSyncing u = false ->
        UI.isLoading u = UI.isLoading (ui (sys a)) ->
        UI.refreshing u = UI.refreshing (ui (sys a)) ->
        spinners_owed (mkApp (mkSys u (world (sys a))) (remove_nth i (pending a)))
        /\ forall w, spinners_owed (mkApp (mkSys u w) (remove_nth i (pending a)))).
      { intros u E1 E2 E3.
        assert (H : forall w, spinners_owed (mkApp (mkSys u w) (remove_nth i (pending a)))).
        { intros w. unfold spinners_owed. cbn [sys pending ui]. rewrite E1, E2, E3.
          split; [exact Hv'|]. split; [discriminate|]. split.
          - intros H. destruct (Hl H) as (o & Ho & Eo). exists o. split; [|exact Eo].
            apply (In_remove_nth_other _ _ i _ Et Ho). discriminate.
          - intros H. destruct (Hr H) as (o & Ho & Eo). exists o. split; [|exact Eo].
            apply (In_remove_nth_other _ _ i _ Et Ho). discriminate. }
        split; [apply H | exact H]. }
      destruct r.
      * rewrite handleSubmit_resume_run. cbn [snd].
        split; [|split].
        -- pose proof (Hsave items Hi) as [Hm Hb].
           split; [|exact Hb].
           revert Hm. unfold memory, reset_form. cbn [sys ui]. 
           destruct (storage_fails (world (sys a))); intros Hm; exact Hm.
        -- unfold reset_form. cbn [sys ui]. cbn. repeat split; try (now left);
             intros H; now destruct H.
        -- unfold reset_form.
           destruct (storage_fails (world (sys a)));
             cbn [sys ui world save_failed saved]; apply Hspin; reflexivity.
      * unfold handleDelete_resume. rewrite persistBookings_resume_run. cbn [snd].
        split; [exact (Hsave items Hi)|]. split.
        -- cbn [sys]. destruct (storage_fails (world (sys a))); exact Hf.
        -- destruct (storage_fails (world (sys a)));
             cbn [sys ui world save_failed saved]; apply Hspin; reflexivity.
Qed.

Lemma live_app_ok a : live a -> app_ok a.
Proof.
  induction 1 as [w Hw|e a _ IH|i a _ IH|w' a _ IH Hkv|a _ IH].
  - split; [|split].
    + split; [reflexivity|]. unfold stored_blob. cbn [sys world]. now rewrite Hw.
    + cbn. repeat split; try (now left); intros H; now destruct H.
    + unfold spinners_owed. cbn. repeat split; try discriminate. intros items r [].
  - now destruct (fire_keeps_ok e a IH).
  - now destruct (finish_keeps_ok i a IH).
  - destruct IH as ((Hm & Hb) & Hf & Hsp). split; [|split].
    + split; [exact Hm|]. unfold stored_blob in *. cbn [sys world]. now rewrite Hkv.
    + exact Hf.
    + exact Hsp.
  - destruct IH as ((Hm & Hb) & Hf & Hsp). split; [|split].
    + split; [reflexivity | exact Hb].
    + cbn. repeat split; try (now left); intros H; now destruct H.
    + unfold spinners_owed. cbn. repeat split; try discriminate. intros items r [].
Qed.

(** X17: on a device, where a handler waits at its [await] while the screen
    takes other events and waiting handlers are answered in any order, every
    state of the application (first started over a storage with nothing
    under [STORAGE_KEY], possibly killed and started again) satisfies: the
    bookings in memory and in the blob are valid; the selected service is
    one of the enum and no service error is set; a name error is set only
    while the name is blank and a date error only while no date is
    selected; [isSyncing], [isLoading] and [refreshing] are on only while a
    handler that raised them is waiting, so all three are off when nothing
    waits; and the synchronous part of every handler, and the rest of every
    waiting handler, return normally. *)
Theorem live_app_invariant a :
  live a ->
  store_ok (sys a)
  /\ form_current (ui (sys a))
  /\ spinners_owed a
  /\ (pending a = [] ->
      UI.isSyncing (ui (sys a)) = false /\ UI.isLoading (ui (sys a)) = false
      /\ UI.refreshing (ui (sys a)) = false)
  /\ (forall e, exists t, fst (start e (sys a)) = Returned t)
  /\ (forall t, In t (pending a) -> fst (resume t (sys a)) = Returned tt).
Proof.
  intros Hl. pose proof (live_app_ok a Hl) as Hok.
  pose proof Hok as (Hs & Hf & Hsp).
  split; [exact Hs|]. split; [exact Hf|]. split; [exact Hsp|]. split; [|split].
  - intros Hp. destruct Hsp as (_ & Hy & Hld & Hr). rewrite Hp in *.
    split; [|split].
    + destruct (UI.isSyncing (ui (sys a))); [|reflexivity].
      now destruct (Hy eq_refl) as (? & ? & []).
    + destruct (UI.isLoading (ui (sys a))); [|reflexivity].
      now destruct (Hld eq_refl) as (? & [] & _).
    + destruct (UI.refreshing (ui (sys a))); [|reflexivity].
      now destruct (Hr eq_refl) as (? & [] & _).
  - intros e. now destruct (fire_keeps_ok e a Hok).
  - now destruct (finish_keeps_ok 0 a Hok).
Qed.

Lemma live_answered : live Ex4.answered.
Proof.
  unfold Ex4.answered, Ex4.pressed_again, Ex4.typing_on, Ex4.saving, Ex4.dated,
    Ex4.loaded_, Ex4.typed, Ex4.started.
  repeat (first [apply live_fire | apply live_finish]).
  now apply live_init.
Qed.

Lemma live_app_invariant_witness :
  UI.isSyncing (ui (sys Ex4.saving)) = true
  /\ memory (sys Ex4.pressed_again) = [Ex.alice]
  /\ UI.name (ui (sys Ex4.pressed_again)) = lit "Bob"
  /\ pending Ex4.answered = []
  /\ UI.name (ui (sys Ex4.answered)) = []
  /\ store_ok (sys Ex4.answered)
  /\ UI.isSyncing (ui (sys Ex4.answered)) = false.
Proof.
  destruct (live_app_invariant Ex4.answered live_answered) as (H1 & _ & _ & H2 & _).
  do 5 (split; [reflexivity|]). split; [exact H1|].
  exact (proj1 (H2 eq_refl)).
Defined.

(** Without an event in between, a handler in two parts does what the
    handler does in one. *)
Lemma uninterrupted_is_atomic e s :
  UI.isSyncing (ui s) = false ->
  sys (finish 0 (fire e (mkApp s []))) = snd (dispatch e s).
Proof.
  intros Hy. unfold fire, finish. cbn [sys pending app].
  destruct e as [| |text| |ty date0|index| |id0|text].
  - reflexivity.
  - reflexivity.
  - reflexivity.
  - reflexivity.
  - destruct (dispatch_sync (DateChange ty date0) s eq_refl) as [E _].
    rewrite E. reflexivity.
  - destruct (dispatch_sync (PressService index) s eq_refl) as [E _].
    rewrite E. reflexivity.
  - rewrite start_PressSubmit, Hy. cbn [dispatch]. unfold bind at 1, get_ui.
    rewrite Hy. rewrite handleSubmit_split. unfold bind at 1.
    destruct (handleSubmit_begin s) as [[[items|]|e|v] s']; reflexivity.
  - reflexivity.
  - reflexivity.
Qed.

(** ** Correcting the form *)

(** X18: correcting a field after a rejected submission leaves exactly the
    messages that a new validation would give.  When the errors are those
    of a rejected submission, typing a name that is not blank, picking a
    date, or pressing a service chip gives a form whose errors are again
    those a rejected submission of it would leave. *)
Theorem corrected_field_errors_current s :
  UI.errors (ui s) = expected_errors (ui s) ->
  (forall text, trim text <> [] ->
     UI.errors (ui (snd (dispatch (ChangeName text) s)))
     = expected_errors (ui (snd (dispatch (ChangeName text) s))))
  /\ (forall ty d, ty <> lit "dismissed" ->
       UI.errors (ui (snd (dispatch (DateChange ty (Some d)) s)))
       = expected_errors (ui (snd (dispatch (DateChange ty (Some d)) s))))
  /\ (forall index, index < length SERVICE_OPTIONS ->
       UI.errors (ui (snd (dispatch (PressService index) s)))
       = expected_errors (ui (snd (dispatch (PressService index) s)))).
Proof.
  intros He. split; [|split].
  - intros text Ht. cbn [dispatch]. unfold onChangeName, bind, setName, updateErrors,
      modify_ui. cbn [snd ui UI.errors UI.set_errors UI.set_name].
    rewrite He. unfold expected_errors, clear_error.
    cbn [UI.name UI.selectedDate UI.service UI.set_errors UI.set_name
         err_date err_service].
    destruct (is_empty (trim text)) eqn:E; [|reflexivity].
    apply is_empty_true in E. contradiction.
  - intros ty d Hty. cbn [dispatch]. rewrite handleDateChange_run.
    apply str_eqb_neq in Hty. rewrite Hty. cbn [snd ui].
    cbn [UI.errors UI.set_errors UI.set_showDatePicker UI.set_selectedDate].
    rewrite He. reflexivity.
  - intros index Hi. cbn [dispatch].
    destruct (nth_error SERVICE_OPTIONS index) as [opt|] eqn:E.
    + apply nth_error_In, is_service_In in E.
      unfold onPressService, bind, setService, updateErrors, modify_ui.
      cbn [snd ui UI.errors UI.set_errors UI.set_service].
      rewrite He. unfold expected_errors, clear_error.
      cbn [UI.name UI.selectedDate UI.service UI.set_errors UI.set_service
           err_name err_date].
      now rewrite E.
    + apply nth_error_None in E. lia.
Qed.

Lemma corrected_field_errors_current_witness :
  UI.errors (ui (snd (dispatch (ChangeName (lit "Dan")) Ex2.complained)))
  = mkFormErrors None (Some (lit "Date is required")) None
  /\ UI.errors (ui (snd (dispatch (DateChange (lit "set") (Some 0%Z)) Ex2.complained)))
     = mkFormErrors (Some (lit "Name is required")) None None.
Proof.
  destruct (corrected_field_errors_current Ex2.complained eq_refl) as (H1 & H2 & _).
  split.
  - etransitivity; [apply (H1 (lit "Dan")); discriminate | reflexivity].
  - etransitivity; [apply (H2 (lit "set") 0%Z); discriminate | reflexivity].
Defined.

(** ** Long queries *)

Lemma startsWith_length s : forall q, startsWith s q = true -> length q <= length s.
Proof.
  induction s as [|y s IH]; intros [|x q]; cbn [startsWith length]; intros H;
    try discriminate; try lia.
  apply andb_true_iff in H as [_ H]. apply IH in H. lia.
Qed.

Lemma includes_length s q : includes s q = true -> length q <= length s.
Proof.
  induction s as [|y s IH]; cbn [includes]; intros H;
    apply orb_true_iff in H as [H|H]; try discriminate.
  - now apply startsWith_length.
  - now apply startsWith_length.
  - apply IH in H. cbn [length]. lia.
Qed.

(** X19: the query is matched as typed, white space included.  For a query
    that is not blank, a record whose lower-cased name and service are both
    shorter than the lower-cased query is not shown; so a name followed by
    a space does not find the record of that name. *)
Theorem longer_query_finds_nothing lower u b :
  ~ blank (UI.searchQuery u) ->
  length (lower (name b)) < length (lower (UI.searchQuery u)) ->
  length (lower (service b)) < length (lower (UI.searchQuery u)) ->
  ~ In b (filteredBookings lower u).
Proof.
  intros Hq Hn Hs Hin. unfold filteredBookings in Hin.
  apply filter_In in Hin as [_ Hm]. rewrite matches_not_blank in Hm by exact Hq.
  unfold contains_ci in Hm. apply orb_true_iff in Hm as [Hm|Hm];
    apply includes_length in Hm; lia.
Qed.

Lemma longer_query_finds_nothing_witness :
  ~ In Ex2.al (filteredBookings toLowerCase_ascii (ui (Ex2.looking_for (lit "Al "))))
  /\ In Ex2.al (filteredBookings toLowerCase_ascii (ui (Ex2.looking_for (lit "Al")))).
Proof.
  split.
  - apply longer_query_finds_nothing.
    + intros H. inversion H as [|? ? Hc _]. discriminate Hc.
    + cbn. lia.
    + cbn. lia.
  - now left.
Defined.
